(** * ShadowLend: confidential circuits and ledger callbacks

    Shallow embedding of
    - [encrypted-ixs/src/lib.rs]: the six Arcis circuits
      ([compute_confidential_deposit], [..._borrow], [..._withdraw],
      [..._repay], [..._liquidate], [..._interest]);
    - [programs/shadowlend_program/src/instructions/*/callback.rs]: the
      deposit, repay and liquidate callbacks that apply a verified
      computation output to the obligation and pool accounts.

    Integers of width w are [Z] values in [0, 2^w) (or [-2^63, 2^63) for
    [i64]); every [+], [*] and [-] of the circuits is written with its
    wrap-around.  Each u128 subtraction is additionally recorded, with its
    two operands, in a small writer monad, so that whether a subtraction
    underflows can be stated about the circuits themselves. *)

From Stdlib Require Import ZArith Lia List Bool.
Import ListNotations.
Open Scope Z_scope.

(* ================================================================= *)
(** ** Machine integers *)

Module U128.

Definition modulus : Z := 2 ^ 128.

Definition wrap (z : Z) : Z := z mod modulus.

Definition add (a b : Z) : Z := wrap (a + b).
Definition mul (a b : Z) : Z := wrap (a * b).
(** Division of unsigned values (the divisors used by the circuits are
    never 0). *)
Definition div (a b : Z) : Z := a / b.

Definition in_range (z : Z) : Prop := 0 <= z < modulus.

End U128.

Module U64.
Definition modulus : Z := 2 ^ 64.
Definition in_range (z : Z) : Prop := 0 <= z < modulus.
End U64.

Module I64.
(** Two's complement wrap-around of an [i64] result. *)
Definition wrap (z : Z) : Z := (z + 2 ^ 63) mod 2 ^ 64 - 2 ^ 63.
Definition sub (a b : Z) : Z := wrap (a - b).
Definition in_range (z : Z) : Prop := - 2 ^ 63 <= z < 2 ^ 63.
End I64.

(** [b as u128] for a [bool]. *)
Definition bool_as_u128 (b : bool) : Z := if b then 1 else 0.

(* ================================================================= *)
(** ** Subtraction-logging monad

    [M A] is a computation returning an [A] together with the operands
    [(minuend, subtrahend)] of every u128 subtraction it performed, in
    program order. *)

Definition M (A : Type) : Type := (A * list (Z * Z))%type.

Definition ret {A} (a : A) : M A := (a, []).

Definition bind {A B} (m : M A) (f : A -> M B) : M B :=
  let (a, l1) := m in
  let (b, l2) := f a in
  (b, l1 ++ l2).

Notation "'let*' x ':=' m 'in' k" := (bind m (fun x => k))
  (at level 200, x name, m at level 100, k at level 200).

(** [a - b] on u128: the result wraps, the operands are recorded. *)
Definition sub_u128 (a b : Z) : M Z := (U128.wrap (a - b), [(a, b)]).

Definition value {A} (m : M A) : A := fst m.
Definition subtractions {A} (m : M A) : list (Z * Z) := snd m.

(** A subtraction underflows when its subtrahend exceeds its minuend. *)
Definition underflows (p : Z * Z) : bool := fst p <? snd p.

(* ================================================================= *)
(** ** Circuit data (encrypted-ixs/src/lib.rs) *)

Record UserState := mkUserState {
  deposit_amount : Z;
  borrow_amount : Z;
  accrued_interest : Z;
  last_interest_calc_ts : Z   (* i64 *)
}.

Record PoolState := mkPoolState {
  total_deposits : Z;
  total_borrows : Z;
  accumulated_interest : Z;
  available_borrow_liquidity : Z
}.

Record ConfidentialDepositOutput := {
  dep_new_user_state : UserState;
  dep_success : bool
}.

Record ConfidentialBorrowOutput := {
  bor_new_user_state : UserState;
  bor_approved : bool
}.

Record ConfidentialWithdrawOutput := {
  wd_new_user_state : UserState;
  wd_approved : bool
}.

Record ConfidentialRepayOutput := {
  rep_new_user_state : UserState;
  rep_success : bool
}.

Record ConfidentialLiquidateOutput := {
  liq_new_user_state : UserState;
  liq_liquidated : bool
}.

Record ConfidentialInterestOutput := {
  int_new_user_state : UserState;
  int_success : bool
}.

Definition user_ok (u : UserState) : Prop :=
  U128.in_range (deposit_amount u) /\ U128.in_range (borrow_amount u) /\
  U128.in_range (accrued_interest u) /\ I64.in_range (last_interest_calc_ts u).

Definition pool_ok (p : PoolState) : Prop :=
  U128.in_range (total_deposits p) /\ U128.in_range (total_borrows p) /\
  U128.in_range (accumulated_interest p) /\
  U128.in_range (available_borrow_liquidity p).

(* ================================================================= *)
(** ** Circuits *)

Definition compute_confidential_deposit (amount : Z) (user_state : UserState)
    (pool_state : PoolState) (max_creditable : Z)
    : M (ConfidentialDepositOutput * PoolState) :=
  let valid_amount := amount <=? max_creditable in
  let effective_credit := U128.mul (bool_as_u128 valid_amount) amount in
  let user_state' := {| deposit_amount := U128.add (deposit_amount user_state) effective_credit;
                        borrow_amount := borrow_amount user_state;
                        accrued_interest := accrued_interest user_state;
                        last_interest_calc_ts := last_interest_calc_ts user_state |} in
  let pool_state' := {| total_deposits := U128.add (total_deposits pool_state) effective_credit;
                        total_borrows := total_borrows pool_state;
                        accumulated_interest := accumulated_interest pool_state;
                        available_borrow_liquidity := available_borrow_liquidity pool_state |} in
  ret ({| dep_new_user_state := user_state'; dep_success := valid_amount |}, pool_state').

Definition compute_confidential_borrow (borrow_amount_in : Z) (user_state : UserState)
    (pool_state : PoolState) (collateral_price borrow_price ltv_bps : Z)
    : M (ConfidentialBorrowOutput * PoolState) :=
  let proposed_borrow := U128.add (borrow_amount user_state) borrow_amount_in in
  let collateral_value := U128.mul (deposit_amount user_state) collateral_price in
  let collateral_with_ltv := U128.div (U128.mul collateral_value ltv_bps) 10000 in
  let borrow_value := U128.mul proposed_borrow borrow_price in
  let approved := borrow_value <=? collateral_with_ltv in
  let has_liquidity := borrow_amount_in <=? available_borrow_liquidity pool_state in
  let final_approved := approved && has_liquidity in
  let update_factor := bool_as_u128 final_approved in
  let borrow_delta := U128.mul update_factor borrow_amount_in in
  let* new_liquidity := sub_u128 (available_borrow_liquidity pool_state) borrow_delta in
  let user_state' := {| deposit_amount := deposit_amount user_state;
                        borrow_amount := U128.add (borrow_amount user_state) borrow_delta;
                        accrued_interest := accrued_interest user_state;
                        last_interest_calc_ts := last_interest_calc_ts user_state |} in
  let pool_state' := {| total_deposits := total_deposits pool_state;
                        total_borrows := U128.add (total_borrows pool_state) borrow_delta;
                        accumulated_interest := accumulated_interest pool_state;
                        available_borrow_liquidity := new_liquidity |} in
  ret ({| bor_new_user_state := user_state'; bor_approved := final_approved |}, pool_state').

Definition compute_confidential_withdraw (withdraw_amount : Z) (user_state : UserState)
    (pool_state : PoolState) (collateral_price borrow_price ltv_bps : Z)
    : M (ConfidentialWithdrawOutput * PoolState) :=
  let withdraw_u128 := withdraw_amount in
  let actual_withdraw := Z.min withdraw_u128 (deposit_amount user_state) in
  let* new_deposit := sub_u128 (deposit_amount user_state) actual_withdraw in
  let total_borrow := U128.add (borrow_amount user_state) (accrued_interest user_state) in
  let collateral_value := U128.mul new_deposit collateral_price in
  let collateral_with_ltv := U128.div (U128.mul collateral_value ltv_bps) 10000 in
  let borrow_value := U128.mul total_borrow borrow_price in
  let no_borrow := total_borrow =? 0 in
  let hf_ok := borrow_value <=? collateral_with_ltv in
  let approved := no_borrow || hf_ok in
  let update_factor := bool_as_u128 approved in
  let withdraw_delta := U128.mul update_factor actual_withdraw in
  let* new_user_deposit := sub_u128 (deposit_amount user_state) withdraw_delta in
  let* new_total_deposits := sub_u128 (total_deposits pool_state) withdraw_delta in
  let user_state' := {| deposit_amount := new_user_deposit;
                        borrow_amount := borrow_amount user_state;
                        accrued_interest := accrued_interest user_state;
                        last_interest_calc_ts := last_interest_calc_ts user_state |} in
  let pool_state' := {| total_deposits := new_total_deposits;
                        total_borrows := total_borrows pool_state;
                        accumulated_interest := accumulated_interest pool_state;
                        available_borrow_liquidity := available_borrow_liquidity pool_state |} in
  ret ({| wd_new_user_state := user_state'; wd_approved := approved |}, pool_state').

Definition compute_confidential_repay (repay_amount : Z) (user_state : UserState)
    (pool_state : PoolState) : M (ConfidentialRepayOutput * PoolState) :=
  let repay_u128 := repay_amount in
  let total_debt := U128.add (borrow_amount user_state) (accrued_interest user_state) in
  let actual_repay := Z.min repay_u128 total_debt in
  let interest_payment := Z.min actual_repay (accrued_interest user_state) in
  let* new_interest := sub_u128 (accrued_interest user_state) interest_payment in
  let* principal_payment := sub_u128 actual_repay interest_payment in
  let* new_borrow := sub_u128 (borrow_amount user_state)
                       (Z.min principal_payment (borrow_amount user_state)) in
  let* new_total_borrows := sub_u128 (total_borrows pool_state)
                              (Z.min principal_payment (total_borrows pool_state)) in
  let user_state' := {| deposit_amount := deposit_amount user_state;
                        borrow_amount := new_borrow;
                        accrued_interest := new_interest;
                        last_interest_calc_ts := last_interest_calc_ts user_state |} in
  let pool_state' := {| total_deposits := total_deposits pool_state;
                        total_borrows := new_total_borrows;
                        accumulated_interest :=
                          U128.add (accumulated_interest pool_state) interest_payment;
                        available_borrow_liquidity :=
                          U128.add (available_borrow_liquidity pool_state) actual_repay |} in
  let success := 0 <? actual_repay in
  ret ({| rep_new_user_state := user_state'; rep_success := success |}, pool_state').

Definition compute_confidential_liquidate (repay_amount : Z) (user_state : UserState)
    (pool_state : PoolState)
    (collateral_price borrow_price liquidation_threshold liquidation_bonus : Z)
    : M (ConfidentialLiquidateOutput * PoolState) :=
  let repay_u128 := repay_amount in
  let total_borrow := U128.add (borrow_amount user_state) (accrued_interest user_state) in
  let collateral_value := U128.mul (deposit_amount user_state) collateral_price in
  let collateral_with_threshold := U128.mul collateral_value liquidation_threshold in
  let borrow_value := U128.mul (U128.mul total_borrow borrow_price) 10000 in
  let has_borrow := 0 <? total_borrow in
  let under_collateralized := collateral_with_threshold <? borrow_value in
  let is_liquidatable := has_borrow && under_collateralized in
  let proceed := bool_as_u128 is_liquidatable in
  let actual_repay := Z.min (U128.mul proceed repay_u128) total_borrow in
  let repay_value_calc := U128.mul actual_repay borrow_price in
  let collateral_amount := U128.div repay_value_calc (Z.max collateral_price 1) in
  let with_bonus :=
    U128.div (U128.mul collateral_amount (U128.add 10000 liquidation_bonus)) 10000 in
  let seized := Z.min with_bonus (deposit_amount user_state) in
  let* new_deposit := sub_u128 (deposit_amount user_state) seized in
  let interest_payment := Z.min actual_repay (accrued_interest user_state) in
  let* new_interest := sub_u128 (accrued_interest user_state) interest_payment in
  let* principal_payment := sub_u128 actual_repay interest_payment in
  let* new_borrow := sub_u128 (borrow_amount user_state)
                       (Z.min principal_payment (borrow_amount user_state)) in
  let* new_total_deposits := sub_u128 (total_deposits pool_state) seized in
  let* new_total_borrows := sub_u128 (total_borrows pool_state)
                              (Z.min principal_payment (total_borrows pool_state)) in
  let user_state' := {| deposit_amount := new_deposit;
                        borrow_amount := new_borrow;
                        accrued_interest := new_interest;
                        last_interest_calc_ts := last_interest_calc_ts user_state |} in
  let pool_state' := {| total_deposits := new_total_deposits;
                        total_borrows := new_total_borrows;
                        accumulated_interest :=
                          U128.add (accumulated_interest pool_state) interest_payment;
                        available_borrow_liquidity := available_borrow_liquidity pool_state |} in
  ret ({| liq_new_user_state := user_state'; liq_liquidated := is_liquidatable |}, pool_state').

Definition seconds_per_year : Z := 31536000.

Definition compute_confidential_interest (user_state : UserState) (pool_state : PoolState)
    (current_ts borrow_rate_bps : Z) : M (ConfidentialInterestOutput * PoolState) :=
  let last_ts := last_interest_calc_ts user_state in
  let diff := I64.sub current_ts last_ts in
  let time_elapsed := Z.max diff 0 in
  let borrow := borrow_amount user_state in
  let rate := borrow_rate_bps in
  let interest := U128.div (U128.mul (U128.mul borrow rate) time_elapsed)
                           (U128.mul 10000 seconds_per_year) in
  let user_state' := {| deposit_amount := deposit_amount user_state;
                        borrow_amount := borrow_amount user_state;
                        accrued_interest := U128.add (accrued_interest user_state) interest;
                        last_interest_calc_ts := current_ts |} in
  let pool_state' := {| total_deposits := total_deposits pool_state;
                        total_borrows := total_borrows pool_state;
                        accumulated_interest :=
                          U128.add (accumulated_interest pool_state) interest;
                        available_borrow_liquidity := available_borrow_liquidity pool_state |} in
  ret ({| int_new_user_state := user_state'; int_success := true |}, pool_state').

(* ================================================================= *)
(** ** Ledger accounts (programs/shadowlend_program/src/state) *)

(** A ciphertext is a 32-byte array, here a list of bytes. *)
Definition ciphertext := list Z.

(** [encrypted_state_blob] holds the four user-state ciphertexts; it is
    kept flattened (the bytes in order), which is also what every callback
    hashes. *)
Record UserObligation := mkUserObligation {
  encrypted_state_blob : list Z;
  state_commitment : list Z;
  total_funded : Z;        (* u64 *)
  total_claimed : Z;       (* u64 *)
  state_nonce : Z;         (* u128 *)
  ob_last_update_ts : Z
}.

Record Pool := mkPool {
  encrypted_pool_state : list Z;
  pool_state_commitment : list Z;
  pool_state_initialized : bool;
  pool_last_update_ts : Z
}.

(** The token accounts a callback can move funds between. *)
Inductive TokenAccount :=
  | UserTokenAccount
  | CollateralVault
  | BorrowVault
  | LiquidatorCollateralAccount
  | LiquidatorBorrowAccount.

Definition token_account_eqb (a b : TokenAccount) : bool :=
  match a, b with
  | UserTokenAccount, UserTokenAccount
  | CollateralVault, CollateralVault
  | BorrowVault, BorrowVault
  | LiquidatorCollateralAccount, LiquidatorCollateralAccount
  | LiquidatorBorrowAccount, LiquidatorBorrowAccount => true
  | _, _ => false
  end.

Record Ledger := mkLedger {
  obligation : UserObligation;
  pool : Pool;
  balances : TokenAccount -> Z
}.

(** Errors of [error.rs] that the callbacks raise, plus the token program's
    insufficient-funds failure and a Rust panic (out-of-range slice). *)
Inductive ErrorCode :=
  | AbortedComputation
  | InvalidComputationOutput
  | InvalidDepositAmount
  | InvalidBorrowAmount
  | InvalidWithdrawAmount
  | InsufficientLiquidity
  | MathOverflow
  | InsufficientFunds
  | Panic.

Inductive result (A : Type) :=
  | Ok (a : A)
  | Err (e : ErrorCode).
Arguments Ok {A} a.
Arguments Err {A} e.

Definition bind_result {A B} (m : result A) (f : A -> result B) : result B :=
  match m with
  | Ok a => f a
  | Err e => Err e
  end.

Notation "'let!' x ':=' m 'in' k" := (bind_result m (fun x => k))
  (at level 200, x name, m at level 100, k at level 200).

Definition require (b : bool) (e : ErrorCode) : result unit :=
  if b then Ok tt else Err e.

(** A transaction commits all its writes or none of them. *)
Definition apply_tx (l : Ledger) (r : result Ledger) : Ledger :=
  match r with
  | Ok l' => l'
  | Err _ => l
  end.

(** [token::transfer]: fails when the source holds less than [amount]. *)
Definition token_transfer (bal : TokenAccount -> Z) (from to : TokenAccount) (amount : Z)
    : result (TokenAccount -> Z) :=
  if amount <=? bal from then
    Ok (fun a => if token_account_eqb a from then bal a - amount
                 else if token_account_eqb a to then bal a + amount
                 else bal a)
  else Err InsufficientFunds.

Definition checked_add_u128 (a b : Z) : result Z :=
  if a + b <? U128.modulus then Ok (a + b) else Err MathOverflow.

Definition checked_add_u64 (a b : Z) : result Z :=
  if a + b <? U64.modulus then Ok (a + b) else Err MathOverflow.

(** [c[0]] of a ciphertext. *)
Definition byte0 (c : ciphertext) : Z := nth 0 c 0.

(** [u64::from_le_bytes(c[0..8])]. *)
Fixpoint le_bytes (bs : list Z) : Z :=
  match bs with
  | [] => 0
  | b :: t => b + 256 * le_bytes t
  end.

Definition u64_from_le_bytes (c : ciphertext) : Z := le_bytes (firstn 8 c).

(** [ciphertexts[..4]]: panics when fewer than four are present. *)
Definition first_four (cts : list ciphertext) : result (list ciphertext) :=
  if (length cts <? 4)%nat then Err Panic else Ok (firstn 4 cts).

(** The XOR fold of [deposit/callback.rs]:
    [for (i, byte) in blob.iter().enumerate() { commitment[i % 32] ^= byte; }] *)
Fixpoint update_nth (n : nat) (f : Z -> Z) (l : list Z) : list Z :=
  match l, n with
  | [], _ => []
  | x :: t, O => f x :: t
  | x :: t, S n' => x :: update_nth n' f t
  end.

Fixpoint xor_fold (i : nat) (bs : list Z) (acc : list Z) : list Z :=
  match bs with
  | [] => acc
  | b :: t => xor_fold (S i) t (update_nth (Nat.modulo i 32) (fun x => Z.lxor x b) acc)
  end.

Definition xor_commitment (blob : list Z) : list Z := xor_fold 0 blob (repeat 0 32).

(** The verified part of [SignedComputationOutputs]: the ciphertexts of
    [field_0] (the user output) and [field_1] (the pool output).
    [verify_output] failing is [None]. *)
Record ComputationResult := {
  user_ciphertexts : list ciphertext;
  pool_ciphertexts : list ciphertext
}.

(* ================================================================= *)
(** ** Callbacks *)

(** deposit/callback.rs, [deposit_callback_handler]. *)
Definition deposit_callback_handler (l : Ledger) (now : Z)
    (output : option ComputationResult) : result Ledger :=
  match output with
  | None => Err AbortedComputation
  | Some res =>
    let user_output := user_ciphertexts res in
    let! _ := require (negb (length user_output =? 0)%nat) InvalidComputationOutput in
    let success := negb (byte0 (nth 0 user_output []) =? 0) in
    let! _ := require success InvalidDepositAmount in
    let deposit_amt := u64_from_le_bytes (last user_output []) in
    let! _ := require (0 <? deposit_amt) InvalidDepositAmount in
    let! bal := token_transfer (balances l) UserTokenAccount CollateralVault deposit_amt in
    let ob := obligation l in
    let! nonce := checked_add_u128 (state_nonce ob) 1 in
    let! state_ciphertexts := first_four user_output in
    let blob := concat state_ciphertexts in
    let commitment := xor_commitment blob in
    let! funded := checked_add_u64 (total_funded ob) deposit_amt in
    let ob' := {| encrypted_state_blob := blob;
                  state_commitment := commitment;
                  total_funded := funded;
                  total_claimed := total_claimed ob;
                  state_nonce := nonce;
                  ob_last_update_ts := now |} in
    let p := pool l in
    let p' := {| encrypted_pool_state := encrypted_pool_state p;
                 pool_state_commitment := pool_state_commitment p;
                 pool_state_initialized := pool_state_initialized p;
                 pool_last_update_ts := now |} in
    Ok {| obligation := ob'; pool := p'; balances := bal |}
  end.

Section Keccak.

(** [solana_keccak_hasher::hashv] over one byte slice. *)
Variable keccak : list Z -> list Z.

(** Stores the four ciphertexts of a pool output with their keccak
    commitment (shared tail of the repay, liquidate and interest callbacks). *)
Definition store_pool_output (p : Pool) (now : Z) (pool_output : list ciphertext)
    : result Pool :=
  let! _ := require (negb (length pool_output =? 0)%nat) InvalidComputationOutput in
  let! cts := first_four pool_output in
  let blob := concat cts in
  Ok {| encrypted_pool_state := blob;
        pool_state_commitment := keccak blob;
        pool_state_initialized := true;
        pool_last_update_ts := now |}.

(** repay/callback.rs, [repay_callback_handler]. *)
Definition repay_callback_handler (l : Ledger) (now : Z)
    (output : option ComputationResult) : result Ledger :=
  match output with
  | None => Err AbortedComputation
  | Some res =>
    let user_output := user_ciphertexts res in
    let! _ := require (5 <=? length user_output)%nat InvalidComputationOutput in
    let success := negb (byte0 (nth 4 user_output []) =? 0) in
    let! _ := require success InvalidBorrowAmount in
    let ob := obligation l in
    let! nonce := checked_add_u128 (state_nonce ob) 1 in
    let blob := concat (firstn 4 user_output) in
    let ob' := {| encrypted_state_blob := blob;
                  state_commitment := keccak blob;
                  total_funded := total_funded ob;
                  total_claimed := total_claimed ob;
                  state_nonce := nonce;
                  ob_last_update_ts := now |} in
    let! p' := store_pool_output (pool l) now (pool_ciphertexts res) in
    Ok {| obligation := ob'; pool := p'; balances := balances l |}
  end.

(** liquidate/callback.rs, [liquidate_callback_handler]. *)
Definition liquidate_callback_handler (l : Ledger) (now : Z)
    (output : option ComputationResult) : result Ledger :=
  match output with
  | None => Err AbortedComputation
  | Some res =>
    let user_output := user_ciphertexts res in
    let! _ := require (7 <=? length user_output)%nat InvalidComputationOutput in
    let is_liquidatable := negb (byte0 (nth 4 user_output []) =? 0) in
    let repay_amount := u64_from_le_bytes (nth 5 user_output []) in
    let collateral_seized := u64_from_le_bytes (nth 6 user_output []) in
    if is_liquidatable then
      let! _ := require (0 <? repay_amount) InvalidBorrowAmount in
      let! _ := require (0 <? collateral_seized) InvalidWithdrawAmount in
      let! _ := require (collateral_seized <=? balances l CollateralVault)
                        InsufficientLiquidity in
      let! bal := token_transfer (balances l) CollateralVault
                    LiquidatorCollateralAccount collateral_seized in
      let ob := obligation l in
      let! nonce := checked_add_u128 (state_nonce ob) 1 in
      let blob := concat (firstn 4 user_output) in
      let ob' := {| encrypted_state_blob := blob;
                    state_commitment := keccak blob;
                    total_funded := total_funded ob;
                    total_claimed := total_claimed ob;
                    state_nonce := nonce;
                    ob_last_update_ts := now |} in
      let! p' := store_pool_output (pool l) now (pool_ciphertexts res) in
      Ok {| obligation := ob'; pool := p'; balances := bal |}
    else
      let! bal := (if 0 <? repay_amount then
                     token_transfer (balances l) BorrowVault LiquidatorBorrowAccount
                       repay_amount
                   else Ok (balances l)) in
      Ok {| obligation := obligation l; pool := pool l; balances := bal |}
  end.

End Keccak.

(* ================================================================= *)
(** ** Statements read from the spec

    The spec's formulas are over unbounded magnitudes; they are written
    here with plain [Z] arithmetic, next to the circuits they describe. *)

(** Borrow: approve iff collateral_value * ltv_bps >= proposed_borrow_value * 10000
    and the pool's available liquidity covers the requested amount. *)
Definition spec_borrow_approved (u : UserState) (p : PoolState)
    (amount collateral_price borrow_price ltv_bps : Z) : bool :=
  ((borrow_amount u + amount) * borrow_price * 10000
     <=? deposit_amount u * collateral_price * ltv_bps)
  && (amount <=? available_borrow_liquidity p).

(* ================================================================= *)
(** ** Arithmetic facts *)

Lemma wrap_small (x : Z) : 0 <= x < U128.modulus -> U128.wrap x = x.
Proof. intros H. unfold U128.wrap. apply Z.mod_small. exact H. Qed.

Lemma wrap_range (x : Z) : 0 <= U128.wrap x < U128.modulus.
Proof. unfold U128.wrap, U128.modulus. apply Z.mod_pos_bound. lia. Qed.

Lemma add_small (a b : Z) : 0 <= a -> 0 <= b -> a + b < U128.modulus ->
  U128.add a b = a + b.
Proof. intros. unfold U128.add. apply wrap_small. lia. Qed.

Lemma mul_small (a b : Z) : 0 <= a -> 0 <= b -> a * b < U128.modulus ->
  U128.mul a b = a * b.
Proof. intros. unfold U128.mul. apply wrap_small. nia. Qed.

Lemma add_0_r_u128 (a : Z) : U128.in_range a -> U128.add a 0 = a.
Proof. intros H. unfold U128.add. rewrite Z.add_0_r. apply wrap_small, H. Qed.

Lemma mul_0_l_u128 (a : Z) : U128.mul 0 a = 0.
Proof. reflexivity. Qed.

(** [y <= x / d  <->  y * d <= x] for a positive divisor. *)
Lemma le_div_iff (x y d : Z) : 0 < d -> (y <= x / d <-> y * d <= x).
Proof.
  intros Hd. pose proof (Z.div_mod x d ltac:(lia)) as Hx.
  pose proof (Z.mod_pos_bound x d Hd) as Hr.
  split; intros H; nia.
Qed.

Lemma leb_div_iff (x y d : Z) : 0 < d -> (y <=? x / d) = (y * d <=? x).
Proof.
  intros Hd. destruct (y <=? x / d) eqn:E1, (y * d <=? x) eqn:E2; auto.
  - apply Z.leb_le, le_div_iff in E1; [|exact Hd]. apply Z.leb_gt in E2. lia.
  - apply Z.leb_gt in E1. apply Z.leb_le in E2. apply (le_div_iff x y d Hd) in E2. lia.
Qed.

Ltac bounds := unfold U128.in_range, U64.in_range, U128.modulus, U64.modulus in *;
  first [lia | nia].

Ltac nonneg := repeat (apply Z.mul_nonneg_nonneg || apply Z.add_nonneg_nonneg); lia.

Ltac unfold_circuit :=
  cbv [compute_confidential_deposit compute_confidential_borrow
       compute_confidential_withdraw compute_confidential_repay
       compute_confidential_liquidate compute_confidential_interest
       bind sub_u128 ret value subtractions fst snd].

(* ================================================================= *)
(** ** Claims *)

(** C1 (counterexample).  The approval flag is not the spec's comparison
    once [deposit_amount * collateral_price] leaves u128: with
    deposit_amount = 2^115 and collateral_price = 2^13 the collateral value
    wraps to 0 and a request the comparison accepts is rejected. *)
Lemma borrow_flag_overflow_counterexample :
  let u := mkUserState (2 ^ 115) 0 0 0 in
  let p := mkPoolState 0 0 0 1 in
  bor_approved (fst (value (compute_confidential_borrow 1 u p (2 ^ 13) 1 7500))) = false /\
  spec_borrow_approved u p 1 (2 ^ 13) 1 7500 = true.
Proof. vm_compute. split; reflexivity. Qed.

(** C1 (amended).  For in-range inputs: while the u128 intermediate
    values of the health check do not overflow
    ([deposit_amount * collateral_price * ltv_bps] and
    [(borrow_amount + amount) * borrow_price] below 2^128), the borrow
    circuit's [approved] flag is true iff
    [(borrow_amount + amount) * borrow_price * 10000 <= deposit_amount *
    collateral_price * ltv_bps] and [amount <= available_borrow_liquidity];
    and, overflow or not, when the flag is false the user's
    [borrow_amount] and the pool's [total_borrows] and
    [available_borrow_liquidity] are returned unchanged. *)
Theorem borrow_approved_iff_health_and_liquidity
    (u : UserState) (p : PoolState) (amount collateral_price borrow_price ltv_bps : Z)
    (Hu : user_ok u) (Hp : pool_ok p)
    (Ha : U64.in_range amount) (Hcp : U64.in_range collateral_price)
    (Hbp : U64.in_range borrow_price) (Hltv : U64.in_range ltv_bps) :
  let '(o, p') := value (compute_confidential_borrow amount u p
                           collateral_price borrow_price ltv_bps) in
  (deposit_amount u * collateral_price < U128.modulus ->
   deposit_amount u * collateral_price * ltv_bps < U128.modulus ->
   borrow_amount u + amount < U128.modulus ->
   (borrow_amount u + amount) * borrow_price < U128.modulus ->
   bor_approved o = spec_borrow_approved u p amount collateral_price borrow_price ltv_bps) /\
  (bor_approved o = false ->
     borrow_amount (bor_new_user_state o) = borrow_amount u /\
     total_borrows p' = total_borrows p /\
     available_borrow_liquidity p' = available_borrow_liquidity p).
Proof.
  destruct u as [d b i ts], p as [td tb ai av].
  unfold user_ok, pool_ok, U128.in_range, U64.in_range in *; cbn in *.
  unfold_circuit. cbn.
  split.
  - intros Hcv Hcvl Hpb Hbv.
    rewrite (mul_small d collateral_price) by bounds.
    rewrite (mul_small (d * collateral_price) ltv_bps) by bounds.
    rewrite (add_small b amount) by bounds.
    rewrite (mul_small (b + amount) borrow_price) by bounds.
    unfold U128.div. rewrite leb_div_iff by lia.
    reflexivity.
  - intros Hf. rewrite Hf. cbn.
    rewrite (add_0_r_u128 b) by bounds.
    rewrite (add_0_r_u128 tb) by bounds.
    rewrite Z.sub_0_r, wrap_small by bounds. auto.
Qed.

Lemma borrow_approved_iff_health_and_liquidity_witness :
  (let u := mkUserState 1000 0 0 0 in
   let p := mkPoolState 0 0 0 100000 in
   let '(o, p') := value (compute_confidential_borrow 70000 u p 100 1 7500) in
   bor_approved o = spec_borrow_approved u p 70000 100 1 7500) /\
  (let u := mkUserState (2 ^ 115) 0 0 0 in
   let p := mkPoolState 0 0 0 1 in
   let '(o, p') := value (compute_confidential_borrow 1 u p (2 ^ 13) 1 7500) in
   bor_approved o = false ->
     borrow_amount (bor_new_user_state o) = borrow_amount u /\
     total_borrows p' = total_borrows p /\
     available_borrow_liquidity p' = available_borrow_liquidity p).
Proof.
  split.
  - pose proof (borrow_approved_iff_health_and_liquidity
                  (mkUserState 1000 0 0 0) (mkPoolState 0 0 0 100000) 70000 100 1 7500
                  ltac:(unfold user_ok, U128.in_range, I64.in_range, U128.modulus; cbn; lia)
                  ltac:(unfold pool_ok, U128.in_range, U128.modulus; cbn; lia)
                  ltac:(unfold U64.in_range, U64.modulus; lia)
                  ltac:(unfold U64.in_range, U64.modulus; lia)
                  ltac:(unfold U64.in_range, U64.modulus; lia)
                  ltac:(unfold U64.in_range, U64.modulus; lia)) as H.
    cbv zeta in *.
    destruct (value (compute_confidential_borrow 70000 _ _ 100 1 7500)) as [o p'].
    apply (proj1 H); unfold U128.modulus; cbn; lia.
  - pose proof (borrow_approved_iff_health_and_liquidity
                  (mkUserState (2 ^ 115) 0 0 0) (mkPoolState 0 0 0 1) 1 (2 ^ 13) 1 7500
                  ltac:(unfold user_ok, U128.in_range, I64.in_range, U128.modulus; cbn; lia)
                  ltac:(unfold pool_ok, U128.in_range, U128.modulus; cbn; lia)
                  ltac:(unfold U64.in_range, U64.modulus; lia)
                  ltac:(unfold U64.in_range, U64.modulus; lia)
                  ltac:(unfold U64.in_range, U64.modulus; lia)
                  ltac:(unfold U64.in_range, U64.modulus; lia)) as H.
    cbv zeta in *.
    destruct (value (compute_confidential_borrow 1 _ _ (2 ^ 13) 1 7500)) as [o p'].
    exact (proj2 H).
Defined.

(** Liquidate: liquidatable iff the total debt is positive and
    collateral_value * threshold_bps < total_debt_value * 10000. *)
Definition spec_liquidatable (u : UserState)
    (collateral_price borrow_price liquidation_threshold : Z) : bool :=
  let debt := borrow_amount u + accrued_interest u in
  (0 <? debt) &&
  (deposit_amount u * collateral_price * liquidation_threshold
     <? debt * borrow_price * 10000).

(** Seizure: min(floor(actual_repay * borrow_price / max(collateral_price, 1))
    * (10000 + bonus_bps) / 10000, deposit_amount), where actual_repay is
    min(offered, total_debt) when liquidatable and 0 otherwise. *)
Definition spec_seized (u : UserState) (repay_amount collateral_price borrow_price
    liquidation_threshold liquidation_bonus : Z) : Z :=
  let debt := borrow_amount u + accrued_interest u in
  let actual_repay :=
    if spec_liquidatable u collateral_price borrow_price liquidation_threshold
    then Z.min repay_amount debt else 0 in
  Z.min (actual_repay * borrow_price / Z.max collateral_price 1
           * (10000 + liquidation_bonus) / 10000)
        (deposit_amount u).

(** The u128 intermediate values of the liquidation circuit stay in range. *)
Definition liquidate_no_overflow (u : UserState)
    (collateral_price borrow_price liquidation_threshold liquidation_bonus : Z) : Prop :=
  let debt := borrow_amount u + accrued_interest u in
  debt < U128.modulus /\
  deposit_amount u * collateral_price < U128.modulus /\
  deposit_amount u * collateral_price * liquidation_threshold < U128.modulus /\
  debt * borrow_price * 10000 < U128.modulus /\
  debt * borrow_price * (10000 + liquidation_bonus) < U128.modulus.

(** C2 (counterexample).  With deposit_amount = 2^115 and
    collateral_price = 2^13 the collateral value wraps to 0: a position
    with debt 1 that the spec's comparison calls healthy is liquidated. *)
Lemma liquidate_flag_overflow_counterexample :
  let u := mkUserState (2 ^ 115) 1 0 0 in
  let p := mkPoolState (2 ^ 115) 1 0 0 in
  liq_liquidated (fst (value (compute_confidential_liquidate 1 u p (2 ^ 13) 1 8500 500)))
    = true /\
  spec_liquidatable u (2 ^ 13) 1 8500 = false.
Proof. vm_compute. split; reflexivity. Qed.

Lemma div_nonneg_u128 (a b : Z) : 0 <= a -> 0 < b -> 0 <= U128.div a b.
Proof. intros. unfold U128.div. apply Z.div_pos; lia. Qed.

Lemma div_le_self (a b : Z) : 0 <= a -> 0 < b -> a / b <= a.
Proof. intros. apply Z.div_le_upper_bound; nia. Qed.

(** C2 (amended).  For every input, the collateral seized by the
    liquidation circuit (the amount subtracted from [deposit_amount]) lies
    between 0 and the deposit before the seizure, and the new deposit is
    the old one minus it.  When the u128 intermediate values do not
    overflow, the [liquidated] flag is true iff the total debt is positive
    and [deposit * collateral_price * threshold < debt * borrow_price *
    10000], and the seized amount is
    [min(floor(actual_repay * borrow_price / max(collateral_price, 1)) *
    (10000 + bonus) / 10000, deposit_amount)]. *)
Theorem liquidate_flag_and_seizure
    (u : UserState) (p : PoolState)
    (repay_amount collateral_price borrow_price liquidation_threshold liquidation_bonus : Z)
    (Hu : user_ok u) (Hp : pool_ok p) (Hr : U64.in_range repay_amount)
    (Hcp : U64.in_range collateral_price) (Hbp : U64.in_range borrow_price)
    (Ht : U64.in_range liquidation_threshold) (Hb : U64.in_range liquidation_bonus) :
  let m := compute_confidential_liquidate repay_amount u p collateral_price borrow_price
             liquidation_threshold liquidation_bonus in
  exists seized,
    hd (0, 0) (subtractions m) = (deposit_amount u, seized) /\
    0 <= seized <= deposit_amount u /\
    deposit_amount (liq_new_user_state (fst (value m))) = deposit_amount u - seized /\
    (liquidate_no_overflow u collateral_price borrow_price liquidation_threshold
       liquidation_bonus ->
     liq_liquidated (fst (value m)) =
       spec_liquidatable u collateral_price borrow_price liquidation_threshold /\
     seized = spec_seized u repay_amount collateral_price borrow_price
                liquidation_threshold liquidation_bonus).
Proof.
  destruct u as [d b i ts], p as [td tb ai av].
  unfold user_ok, pool_ok, U128.in_range, U64.in_range, I64.in_range in *; cbn in *.
  unfold_circuit. cbn.
  set (total := U128.add b i).
  set (L := (0 <? total) && (U128.mul (U128.mul d collateral_price) liquidation_threshold
                               <? U128.mul (U128.mul total borrow_price) 10000)).
  set (actual := Z.min (U128.mul (bool_as_u128 L) repay_amount) total).
  set (wb := U128.div (U128.mul (U128.div (U128.mul actual borrow_price)
                                          (Z.max collateral_price 1))
                                (U128.add 10000 liquidation_bonus)) 10000).
  assert (Hwb : 0 <= wb).
  { apply div_nonneg_u128; [apply wrap_range | lia]. }
  exists (Z.min wb d).
  split; [reflexivity|].
  split; [lia|].
  split; [apply wrap_small; clear -Hwb Hu; unfold U128.modulus in *; lia|].
  unfold liquidate_no_overflow. cbv beta zeta iota delta [deposit_amount borrow_amount accrued_interest].
  intros (Hdebt & Hcv & Hcvt & Hbv & Hbb).
  assert (Htot : total = b + i) by (apply add_small; lia).
  assert (Hbp0 : 0 <= (b + i) * borrow_price) by nonneg.
  assert (Hcv0 : 0 <= d * collateral_price) by nonneg.
  assert (HL : L = spec_liquidatable (mkUserState d b i ts) collateral_price borrow_price
                     liquidation_threshold).
  { unfold L, spec_liquidatable; cbn. rewrite Htot.
    rewrite (mul_small d collateral_price) by lia.
    rewrite (mul_small (d * collateral_price) liquidation_threshold) by lia.
    rewrite (mul_small (b + i) borrow_price) by lia.
    rewrite (mul_small ((b + i) * borrow_price) 10000) by lia.
    reflexivity. }
  split; [exact HL|].
  unfold spec_seized.
  cbv beta zeta iota delta [deposit_amount borrow_amount accrued_interest].
  rewrite <- HL.
  assert (Hact : actual = (if L then Z.min repay_amount (b + i) else 0)).
  { unfold actual. rewrite Htot.
    destruct L; cbn; [rewrite (mul_small 1 repay_amount) by bounds | ]; lia. }
  assert (Hact_b : 0 <= actual <= b + i) by (rewrite Hact; destruct L; lia).
  assert (Hab : actual * borrow_price <= (b + i) * borrow_price)
    by (apply Z.mul_le_mono_nonneg_r; lia).
  assert (Hab0 : 0 <= actual * borrow_price) by nonneg.
  assert (Hrv : U128.mul actual borrow_price = actual * borrow_price) by
    (apply mul_small; lia).
  assert (Hbonus : U128.add 10000 liquidation_bonus = 10000 + liquidation_bonus) by
    (apply add_small; unfold U128.modulus in *; lia).
  set (ca := actual * borrow_price / Z.max collateral_price 1).
  assert (Hca : 0 <= ca <= actual * borrow_price).
  { split; [apply Z.div_pos; lia | apply div_le_self; lia]. }
  assert (Hcab : ca * (10000 + liquidation_bonus)
                 <= (b + i) * borrow_price * (10000 + liquidation_bonus))
    by (apply Z.mul_le_mono_nonneg_r; lia).
  assert (Hcab0 : 0 <= ca * (10000 + liquidation_bonus)) by nonneg.
  unfold wb. rewrite Hrv, Hbonus. unfold U128.div. fold ca.
  rewrite (mul_small ca (10000 + liquidation_bonus)) by lia.
  subst ca. rewrite Hact. reflexivity.
Qed.

Lemma liquidate_flag_and_seizure_witness :
  let u := mkUserState 80 100 0 0 in
  let p := mkPoolState 80 100 0 0 in
  let m := compute_confidential_liquidate 50 u p 100 100 8500 500 in
  exists seized,
    hd (0, 0) (subtractions m) = (deposit_amount u, seized) /\
    0 <= seized <= deposit_amount u /\
    deposit_amount (liq_new_user_state (fst (value m))) = deposit_amount u - seized /\
    (liquidate_no_overflow u 100 100 8500 500 ->
     liq_liquidated (fst (value m)) = spec_liquidatable u 100 100 8500 /\
     seized = spec_seized u 50 100 100 8500 500).
Proof.
  apply (liquidate_flag_and_seizure (mkUserState 80 100 0 0) (mkPoolState 80 100 0 0)
           50 100 100 8500 500);
  unfold user_ok, pool_ok, U128.in_range, U64.in_range, I64.in_range,
         U128.modulus, U64.modulus; cbn; lia.
Defined.

Lemma sub_small (a b : Z) : 0 <= a - b < U128.modulus -> U128.wrap (a - b) = a - b.
Proof. apply wrap_small. Qed.

(** C3 (code bug).  The pool-level subtraction [total_deposits - withdraw_delta]
    of the withdraw circuit, and [total_deposits - seized] of the liquidate
    circuit, are capped only by the user's own deposit, not by the pool
    total.  With a user deposit of 100 and a pool [total_deposits] of 0
    (the zero placeholder the deposit, borrow and liquidate handlers pass
    while the pool state is not initialized), both subtractions underflow and the pool total wraps to
    2^128 - 100. *)
Theorem pool_total_deposits_underflow :
  let mw := compute_confidential_withdraw 100 (mkUserState 100 0 0 0)
              (mkPoolState 0 0 0 0) 1 1 7500 in
  let ml := compute_confidential_liquidate 100 (mkUserState 100 100 0 0)
              (mkPoolState 0 100 0 0) 1 1 8500 500 in
  wd_approved (fst (value mw)) = true /\
  In (0, 100) (subtractions mw) /\ underflows (0, 100) = true /\
  total_deposits (snd (value mw)) = U128.modulus - 100 /\
  liq_liquidated (fst (value ml)) = true /\
  In (0, 100) (subtractions ml) /\
  total_deposits (snd (value ml)) = U128.modulus - 100.
Proof.
  vm_compute. repeat split; auto 10.
Qed.

(** C5 (counterexample).  With borrow_amount = 2^128 - 1 and
    accrued_interest = 1 the total debt wraps to 0, so a repayment of 5
    pays nothing, where min(5, b + i) = 5 would pay the interest first. *)
Lemma repay_debt_overflow_counterexample :
  let u := mkUserState 0 (2 ^ 128 - 1) 1 0 in
  let o := fst (value (compute_confidential_repay 5 u (mkPoolState 0 0 0 0))) in
  accrued_interest (rep_new_user_state o) = 1 /\
  Z.min (Z.min 5 (borrow_amount u + accrued_interest u)) (accrued_interest u) = 1.
Proof. vm_compute. split; reflexivity. Qed.

(** C5 (amended).  When [borrow_amount + accrued_interest] does not
    overflow u128, the repay circuit applies actual_repay = min(a, b + i),
    pays interest first (interest_payment = min(actual_repay, i)), applies
    the remainder principal_payment = actual_repay - interest_payment to
    the principal capped at it, and returns accrued_interest = i -
    interest_payment and borrow_amount = b - min(principal_payment, b),
    both non-negative. *)
Theorem repay_interest_first
    (u : UserState) (p : PoolState) (a : Z)
    (Hu : user_ok u) (Hp : pool_ok p) (Ha : U64.in_range a)
    (Hdebt : borrow_amount u + accrued_interest u < U128.modulus) :
  let o := fst (value (compute_confidential_repay a u p)) in
  let actual_repay := Z.min a (borrow_amount u + accrued_interest u) in
  let interest_payment := Z.min actual_repay (accrued_interest u) in
  let principal_payment := actual_repay - interest_payment in
  accrued_interest (rep_new_user_state o) = accrued_interest u - interest_payment /\
  borrow_amount (rep_new_user_state o) =
    borrow_amount u - Z.min principal_payment (borrow_amount u) /\
  0 <= accrued_interest u - interest_payment /\
  0 <= borrow_amount u - Z.min principal_payment (borrow_amount u).
Proof.
  destruct u as [d b i ts].
  unfold user_ok, U128.in_range, U64.in_range, I64.in_range in *; cbn in *.
  unfold_circuit. cbn.
  rewrite (add_small b i) by bounds.
  rewrite (sub_small (Z.min a (b + i)) (Z.min (Z.min a (b + i)) i)) by bounds.
  rewrite (sub_small i (Z.min (Z.min a (b + i)) i)) by bounds.
  rewrite sub_small by bounds.
  repeat split; lia.
Qed.

Lemma repay_interest_first_witness :
  let u := mkUserState 0 100 7 0 in
  let o := fst (value (compute_confidential_repay 50 u (mkPoolState 0 100 0 0))) in
  let actual_repay := Z.min 50 (borrow_amount u + accrued_interest u) in
  let interest_payment := Z.min actual_repay (accrued_interest u) in
  let principal_payment := actual_repay - interest_payment in
  accrued_interest (rep_new_user_state o) = accrued_interest u - interest_payment /\
  borrow_amount (rep_new_user_state o) =
    borrow_amount u - Z.min principal_payment (borrow_amount u) /\
  0 <= accrued_interest u - interest_payment /\
  0 <= borrow_amount u - Z.min principal_payment (borrow_amount u).
Proof.
  apply (repay_interest_first (mkUserState 0 100 7 0) (mkPoolState 0 100 0 0) 50);
  unfold user_ok, pool_ok, U128.in_range, U64.in_range, I64.in_range,
         U128.modulus, U64.modulus; cbn; lia.
Defined.

(** The obligation of the boundary scenario: 1000 units of collateral, no
    debt yet. *)
Definition scenario_user : UserState := mkUserState 1000 0 0 0.

(** C9 (counterexample).  With ltv_bps = 7500, collateral 1000 at price
    100 and a pool holding 100000 of liquidity, the request for 70000 at
    price 1 is approved: 70000 * 10000 <= 100000 * 7500. *)
Lemma boundary_70000_counterexample :
  bor_approved (fst (value (compute_confidential_borrow 70000 scenario_user
                              (mkPoolState 0 0 0 100000) 100 1 7500))) = true.
Proof. vm_compute. reflexivity. Qed.

(** C9 (amended).  In the scenario ltv_bps = 7500, collateral 1000 at
    price 100, borrow price 1, no prior debt, and a pool whose available
    liquidity is at least 75000: the request for 70000 is approved, the
    request whose debt value is exactly 75000 ties with the threshold and
    is approved, and 75001 is rejected. *)
Theorem boundary_scenario_ltv_7500 (p : PoolState)
    (Hp : pool_ok p) (Hliq : 75000 <= available_borrow_liquidity p) :
  bor_approved (fst (value (compute_confidential_borrow 70000 scenario_user p 100 1 7500)))
    = true /\
  bor_approved (fst (value (compute_confidential_borrow 75000 scenario_user p 100 1 7500)))
    = true /\
  bor_approved (fst (value (compute_confidential_borrow 75001 scenario_user p 100 1 7500)))
    = false.
Proof.
  destruct p as [td tb ai av]; cbn in Hliq.
  unfold_circuit. cbn.
  assert (E1 : (70000 <=? av) = true) by (apply Z.leb_le; lia).
  assert (E2 : (75000 <=? av) = true) by (apply Z.leb_le; lia).
  rewrite E1, E2. repeat split.
Qed.

Lemma boundary_scenario_ltv_7500_witness :
  pool_ok (mkPoolState 0 0 0 75000) /\
  bor_approved (fst (value (compute_confidential_borrow 70000 scenario_user
                              (mkPoolState 0 0 0 75000) 100 1 7500))) = true /\
  bor_approved (fst (value (compute_confidential_borrow 75000 scenario_user
                              (mkPoolState 0 0 0 75000) 100 1 7500))) = true /\
  bor_approved (fst (value (compute_confidential_borrow 75001 scenario_user
                              (mkPoolState 0 0 0 75000) 100 1 7500))) = false.
Proof.
  assert (H : pool_ok (mkPoolState 0 0 0 75000))
    by (unfold pool_ok, U128.in_range, U128.modulus; cbn; lia).
  split; [exact H|].
  apply (boundary_scenario_ltv_7500 (mkPoolState 0 0 0 75000) H). cbn. lia.
Defined.

(** C10 (counterexample).  With borrow_amount = 2^128 - 1 and
    accrued_interest = 1 the debt is positive but its u128 sum wraps to 0,
    so the repay circuit reports failure. *)
Lemma repay_success_overflow_counterexample :
  let u := mkUserState 0 (2 ^ 128 - 1) 1 0 in
  rep_success (fst (value (compute_confidential_repay 1 u (mkPoolState 0 0 0 0)))) = false /\
  borrow_amount u + accrued_interest u <> 0.
Proof. vm_compute. split; [reflexivity | discriminate]. Qed.

(** C10 (amended).  For a positive repay amount and a debt
    [borrow_amount + accrued_interest] below 2^128, the repay circuit's
    success flag is false exactly when the debt is zero, and then the
    returned user state and pool state equal the inputs; a verified
    payload whose success flag (ciphertext 4) is false makes the repay
    callback fail with [InvalidBorrowAmount], leaving the ledger as it was. *)
Theorem repay_zero_debt_rejected
    (u : UserState) (p : PoolState) (a : Z)
    (Hu : user_ok u) (Hp : pool_ok p) (Ha : U64.in_range a) (Hpos : 0 < a)
    (Hdebt : borrow_amount u + accrued_interest u < U128.modulus) :
  let '(o, p') := value (compute_confidential_repay a u p) in
  (rep_success o = false <-> borrow_amount u + accrued_interest u = 0) /\
  (rep_success o = false -> rep_new_user_state o = u /\ p' = p) /\
  (forall keccak l now res,
     (5 <= length (user_ciphertexts res))%nat ->
     byte0 (nth 4 (user_ciphertexts res) []) = 0 ->
     repay_callback_handler keccak l now (Some res) = Err InvalidBorrowAmount /\
     apply_tx l (repay_callback_handler keccak l now (Some res)) = l).
Proof.
  destruct u as [d b i ts], p as [td tb ai av].
  unfold user_ok, pool_ok, U128.in_range, U64.in_range, I64.in_range in *; cbn in *.
  unfold_circuit. cbn.
  rewrite (add_small b i) by bounds.
  split; [|split].
  - rewrite Z.ltb_ge. lia.
  - intros Hf. apply Z.ltb_ge in Hf.
    assert (Hb : b = 0) by lia. assert (Hi : i = 0) by lia. subst b i.
    assert (Ha0 : Z.min a (0 + 0) = 0) by lia. rewrite Ha0. cbn.
    rewrite (add_0_r_u128 ai), (add_0_r_u128 av) by bounds.
    replace (tb - Z.min 0 tb) with tb by lia. rewrite (wrap_small tb) by bounds.
    split; reflexivity.
  - intros keccak l now res Hlen Hflag.
    destruct res as [uc pc]; cbn in Hlen, Hflag.
    do 5 (destruct uc as [|? uc]; [cbn in Hlen; lia|]).
    cbn in Hflag. unfold repay_callback_handler, require, bind_result. cbn.
    rewrite Hflag. cbn. split; reflexivity.
Qed.

Lemma repay_zero_debt_rejected_witness :
  let u := mkUserState 10 0 0 0 in
  let p := mkPoolState 10 0 0 0 in
  let '(o, p') := value (compute_confidential_repay 3 u p) in
  (rep_success o = false <-> borrow_amount u + accrued_interest u = 0) /\
  (rep_success o = false -> rep_new_user_state o = u /\ p' = p) /\
  (forall keccak l now res,
     (5 <= length (user_ciphertexts res))%nat ->
     byte0 (nth 4 (user_ciphertexts res) []) = 0 ->
     repay_callback_handler keccak l now (Some res) = Err InvalidBorrowAmount /\
     apply_tx l (repay_callback_handler keccak l now (Some res)) = l).
Proof.
  apply (repay_zero_debt_rejected (mkUserState 10 0 0 0) (mkPoolState 10 0 0 0) 3);
  unfold user_ok, pool_ok, U128.in_range, U64.in_range, I64.in_range,
         U128.modulus, U64.modulus; cbn; lia.
Defined.

(** Interest: borrow * rate_bps * elapsed_seconds / (10000 * seconds_per_year),
    with elapsed_seconds = max(current_ts - last_interest_calc_ts, 0). *)
Definition spec_elapsed (u : UserState) (current_ts : Z) : Z :=
  Z.max (current_ts - last_interest_calc_ts u) 0.

Definition spec_interest (u : UserState) (current_ts borrow_rate_bps : Z) : Z :=
  borrow_amount u * borrow_rate_bps * spec_elapsed u current_ts
  / (10000 * seconds_per_year).

Lemma i64_wrap_small (x : Z) : I64.in_range x -> I64.wrap x = x.
Proof.
  unfold I64.in_range, I64.wrap. intros H.
  rewrite Z.mod_small by lia. lia.
Qed.

(** C6 (counterexample).  With borrow_amount = 2^100 and a rate of 2^30
    bps, [borrow * rate] wraps to 0 in u128 and one elapsed second adds
    no interest, where the formula gives a positive amount. *)
Lemma interest_overflow_counterexample :
  let u := mkUserState 0 (2 ^ 100) 0 0 in
  accrued_interest (int_new_user_state
    (fst (value (compute_confidential_interest u (mkPoolState 0 0 0 0) 1 (2 ^ 30))))) = 0 /\
  0 < spec_interest u 1 (2 ^ 30).
Proof. vm_compute. split; reflexivity. Qed.

(** C6 (amended).  When [current_ts - last_interest_calc_ts] fits in i64:
    while the u128 intermediate values do not overflow (borrow * rate,
    borrow * rate * elapsed and both sums below 2^128), the interest
    circuit adds borrow_amount * rate_bps * elapsed / (10000 *
    seconds_per_year), elapsed = max(current_ts - last_interest_calc_ts, 0),
    to both the user's [accrued_interest] and the pool's
    [accumulated_interest]; and, overflow or not, when elapsed is 0,
    [accrued_interest] is returned unchanged. *)
Theorem interest_accrual
    (u : UserState) (p : PoolState) (current_ts borrow_rate_bps : Z)
    (Hu : user_ok u) (Hp : pool_ok p)
    (Hts : I64.in_range current_ts) (Hr : U64.in_range borrow_rate_bps)
    (Hdiff : I64.in_range (current_ts - last_interest_calc_ts u)) :
  let '(o, p') := value (compute_confidential_interest u p current_ts borrow_rate_bps) in
  (borrow_amount u * borrow_rate_bps < U128.modulus ->
   borrow_amount u * borrow_rate_bps * spec_elapsed u current_ts < U128.modulus ->
   accrued_interest u + spec_interest u current_ts borrow_rate_bps < U128.modulus ->
   accumulated_interest p + spec_interest u current_ts borrow_rate_bps < U128.modulus ->
   accrued_interest (int_new_user_state o) =
     accrued_interest u + spec_interest u current_ts borrow_rate_bps /\
   accumulated_interest p' =
     accumulated_interest p + spec_interest u current_ts borrow_rate_bps) /\
  (spec_elapsed u current_ts = 0 -> accrued_interest (int_new_user_state o) = accrued_interest u).
Proof.
  destruct u as [d b i ts], p as [td tb ai av].
  unfold spec_interest, spec_elapsed in *.
  unfold user_ok, pool_ok, U128.in_range, U64.in_range in *; cbn in *.
  unfold_circuit. cbv beta zeta iota delta [deposit_amount borrow_amount accrued_interest
    last_interest_calc_ts total_deposits total_borrows accumulated_interest
    available_borrow_liquidity].
  unfold I64.sub. rewrite (i64_wrap_small (current_ts - ts)) by exact Hdiff.
  assert (He : 0 <= Z.max (current_ts - ts) 0) by lia.
  split.
  - intros Hbr Hbre Hacc Hpool.
    assert (Hbr0 : 0 <= b * borrow_rate_bps) by nonneg.
    rewrite (mul_small b borrow_rate_bps) by bounds.
    rewrite (mul_small (b * borrow_rate_bps) (Z.max (current_ts - ts) 0)) by bounds.
    unfold U128.div.
    assert (HI : 0 <= b * borrow_rate_bps * Z.max (current_ts - ts) 0 / 315360000000)
      by (apply Z.div_pos; [nonneg | lia]).
    rewrite !add_small by bounds.
    split; reflexivity.
  - intros H0. rewrite H0.
    unfold U128.mul at 1. rewrite Z.mul_0_r.
    change (U128.wrap 0) with 0.
    unfold U128.div. rewrite Z.div_0_l by discriminate.
    rewrite add_0_r_u128 by bounds. reflexivity.
Qed.

Lemma interest_accrual_witness :
  (let u := mkUserState 0 1000000 0 0 in
   let p := mkPoolState 0 1000000 0 0 in
   let '(o, p') := value (compute_confidential_interest u p seconds_per_year 500) in
   accrued_interest (int_new_user_state o) =
     accrued_interest u + spec_interest u seconds_per_year 500 /\
   accumulated_interest p' =
     accumulated_interest p + spec_interest u seconds_per_year 500) /\
  (let u := mkUserState 0 (2 ^ 100) 5 0 in
   let p := mkPoolState 0 0 0 0 in
   let '(o, p') := value (compute_confidential_interest u p 0 (2 ^ 30)) in
   spec_elapsed u 0 = 0 /\ accrued_interest (int_new_user_state o) = accrued_interest u).
Proof.
  split.
  - pose proof (interest_accrual (mkUserState 0 1000000 0 0) (mkPoolState 0 1000000 0 0)
                  seconds_per_year 500
                  ltac:(unfold user_ok, U128.in_range, I64.in_range, U128.modulus;
                               cbn; lia)
                  ltac:(unfold pool_ok, U128.in_range, U128.modulus; cbn; lia)
                  ltac:(unfold I64.in_range, seconds_per_year; cbn; lia)
                  ltac:(unfold U64.in_range, U64.modulus; lia)
                  ltac:(unfold I64.in_range, seconds_per_year; cbn; lia)) as H.
    cbv zeta in *.
    destruct (value (compute_confidential_interest _ _ seconds_per_year 500)) as [o p'].
    apply (proj1 H); unfold U128.modulus, spec_interest, spec_elapsed, seconds_per_year;
      cbn; lia.
  - pose proof (interest_accrual (mkUserState 0 (2 ^ 100) 5 0) (mkPoolState 0 0 0 0) 0 (2 ^ 30)
                  ltac:(unfold user_ok, U128.in_range, I64.in_range, U128.modulus;
                               cbn; lia)
                  ltac:(unfold pool_ok, U128.in_range, U128.modulus; cbn; lia)
                  ltac:(unfold I64.in_range; cbn; lia)
                  ltac:(unfold U64.in_range, U64.modulus; lia)
                  ltac:(unfold I64.in_range; cbn; lia)) as H.
    cbv zeta in *.
    destruct (value (compute_confidential_interest _ _ 0 (2 ^ 30))) as [o p'].
    assert (E : spec_elapsed (mkUserState 0 (2 ^ 100) 5 0) 0 = 0) by reflexivity.
    exact (conj E (proj2 H E)).
Defined.

(* ================================================================= *)
(** ** Callback scenarios *)

(** A 32-byte ciphertext whose first byte is [b]. *)
Definition ct (b : Z) : ciphertext := b :: repeat 0 31.

(** An obligation at nonce 0 whose owner holds 1000 tokens. *)
Definition deposit_ledger : Ledger :=
  mkLedger (mkUserObligation [] (repeat 0 32) 0 0 0 0)
           (mkPool (repeat 0 128) (repeat 0 32) false 0)
           (fun a => match a with UserTokenAccount => 1000 | _ => 0 end).

(** Two verified deposit outputs that transfer 5 tokens; they differ only
    in the first bytes of their first two ciphertexts. *)
Definition deposit_payload_a : ComputationResult :=
  {| user_ciphertexts := [ct 1; ct 2; ct 0; ct 0; ct 5];
     pool_ciphertexts := [ct 5; ct 0; ct 0; ct 0] |}.

Definition deposit_payload_b : ComputationResult :=
  {| user_ciphertexts := [ct 2; ct 1; ct 0; ct 0; ct 5];
     pool_ciphertexts := [ct 5; ct 0; ct 0; ct 0] |}.

(** C4 (code bug).  An accepted deposit moves 5 tokens into the collateral
    vault and increments [state_nonce] by 1, but the callback never stores
    the circuit's pool output: [encrypted_pool_state] and its commitment
    are the ones from before, so the pool's [total_deposits] is not
    increased by the transferred amount. *)
Theorem deposit_callback_drops_pool_update :
  match deposit_callback_handler deposit_ledger 7 (Some deposit_payload_a) with
  | Ok l' =>
      state_nonce (obligation l') = state_nonce (obligation deposit_ledger) + 1 /\
      balances l' CollateralVault = balances deposit_ledger CollateralVault + 5 /\
      encrypted_pool_state (pool l') = encrypted_pool_state (pool deposit_ledger) /\
      pool_state_commitment (pool l') = pool_state_commitment (pool deposit_ledger) /\
      encrypted_pool_state (pool l') <> concat (pool_ciphertexts deposit_payload_a)
  | Err _ => False
  end.
Proof. vm_compute. repeat split; discriminate. Qed.

(** C8 (code bug).  The deposit callback's [state_commitment] is the XOR
    fold of the blob into 32 bytes, not a collision-resistant hash: two
    accepted deposits storing different blobs get the same commitment. *)
Theorem deposit_commitment_collision :
  match deposit_callback_handler deposit_ledger 7 (Some deposit_payload_a),
        deposit_callback_handler deposit_ledger 7 (Some deposit_payload_b) with
  | Ok la, Ok lb =>
      encrypted_state_blob (obligation la) <> encrypted_state_blob (obligation lb) /\
      state_commitment (obligation la) = state_commitment (obligation lb)
  | _, _ => False
  end.
Proof. vm_compute. split; [discriminate | reflexivity]. Qed.

(** The liquidation output as the cluster returns it: one ciphertext per
    scalar field, in declaration order ([UserState] fields 0-3, then the
    flag), the layout the repay callback documents for its own output. *)
Definition liquidate_output_fields (o : ConfidentialLiquidateOutput) : list Z :=
  let s := liq_new_user_state o in
  [deposit_amount s; borrow_amount s; accrued_interest s; last_interest_calc_ts s;
   bool_as_u128 (liq_liquidated o)].

(** The liquidator escrowed 100 tokens into the borrow vault. *)
Definition liquidate_ledger : Ledger :=
  mkLedger (mkUserObligation (repeat 0 128) (repeat 0 32) 0 0 3 0)
           (mkPool (repeat 0 128) (repeat 0 32) true 0)
           (fun a => match a with BorrowVault => 100 | CollateralVault => 500 | _ => 0 end).

(** A healthy target: 1000 collateral at price 100 against a debt of 100. *)
Definition healthy_target : UserState := mkUserState 1000 100 0 0.

(** C7 (code bug).  The liquidation circuit returns five fields, the
    [liquidated] flag last; the callback requires seven ciphertexts, so the
    verified not-liquidatable output is refused with
    [InvalidComputationOutput] and the escrowed 100 tokens stay in the
    borrow vault.  When a seventh ciphertext is present, the refund is the
    amount in ciphertext 5 (the circuit's [actual_repay], 0 when the
    position is healthy), not the escrowed amount. *)
Theorem liquidate_not_liquidatable_no_refund :
  forall keccak : list Z -> list Z,
  let o := fst (value (compute_confidential_liquidate 100 healthy_target
                         (mkPoolState 1000 100 0 0) 100 1 8500 500)) in
  let out5 := {| user_ciphertexts := [ct 0; ct 100; ct 0; ct 0; ct 0];
                 pool_ciphertexts := [ct 0; ct 0; ct 0; ct 0] |} in
  let out7 := {| user_ciphertexts := [ct 0; ct 100; ct 0; ct 0; ct 0; ct 0; ct 0];
                 pool_ciphertexts := [ct 0; ct 0; ct 0; ct 0] |} in
  liq_liquidated o = false /\
  length (liquidate_output_fields o) = 5%nat /\
  liquidate_callback_handler keccak liquidate_ledger 9 (Some out5)
    = Err InvalidComputationOutput /\
  balances (apply_tx liquidate_ledger
              (liquidate_callback_handler keccak liquidate_ledger 9 (Some out5)))
    LiquidatorBorrowAccount = 0 /\
  match liquidate_callback_handler keccak liquidate_ledger 9 (Some out7) with
  | Ok l' => balances l' LiquidatorBorrowAccount = 0 /\ balances l' BorrowVault = 100
  | Err _ => False
  end.
Proof. intros keccak. vm_compute. repeat split. Qed.

(* ================================================================= *)
(** ** Withdraw, borrow and interest callbacks *)

(** The two rejection codes of [error.rs] raised when the circuit refused
    a withdrawal or a borrow. *)
Inductive Rejection :=
  | WithdrawRejected
  | BorrowRejected.

(** Outcome of the withdraw and borrow callbacks: a committed ledger, one
    of the errors above, or a rejection. *)
Inductive outcome (A : Type) :=
  | Done (a : A)
  | Failed (e : ErrorCode)
  | Rejected (r : Rejection).
Arguments Done {A} a.
Arguments Failed {A} e.
Arguments Rejected {A} r.

Definition lift {A} (m : result A) : outcome A :=
  match m with
  | Ok a => Done a
  | Err e => Failed e
  end.

Definition bind_outcome {A B} (m : outcome A) (f : A -> outcome B) : outcome B :=
  match m with
  | Done a => f a
  | Failed e => Failed e
  | Rejected r => Rejected r
  end.

Notation "'let?' x ':=' m 'in' k" := (bind_outcome m (fun x => k))
  (at level 200, x name, m at level 100, k at level 200).

(** [require!(approved, ErrorCode::..Rejected)]. *)
Definition require_approved (b : bool) (r : Rejection) : outcome unit :=
  if b then Done tt else Rejected r.

(** withdraw/callback.rs, [withdraw_callback_handler]. *)
Definition withdraw_callback_handler (l : Ledger) (now : Z)
    (output : option ComputationResult) : outcome Ledger :=
  match output with
  | None => Failed AbortedComputation
  | Some res =>
    let user_output := user_ciphertexts res in
    let? _ := lift (require (negb (length user_output =? 0)%nat)
                      InvalidComputationOutput) in
    let approved := negb (byte0 (nth 0 user_output []) =? 0) in
    let? _ := require_approved approved WithdrawRejected in
    let withdraw_amount := u64_from_le_bytes (last user_output []) in
    let? _ := lift (require (0 <? withdraw_amount) InvalidWithdrawAmount) in
    let? _ := lift (require (withdraw_amount <=? balances l CollateralVault)
                      InsufficientLiquidity) in
    let? bal := lift (token_transfer (balances l) CollateralVault UserTokenAccount
                        withdraw_amount) in
    let ob := obligation l in
    let? nonce := lift (checked_add_u128 (state_nonce ob) 1) in
    let? state_ciphertexts := lift (first_four user_output) in
    let blob := concat state_ciphertexts in
    let commitment := xor_commitment blob in
    let? claimed := lift (checked_add_u64 (total_claimed ob) withdraw_amount) in
    let ob' := {| encrypted_state_blob := blob;
                  state_commitment := commitment;
                  total_funded := total_funded ob;
                  total_claimed := claimed;
                  state_nonce := nonce;
                  ob_last_update_ts := now |} in
    let p := pool l in
    let p' := {| encrypted_pool_state := encrypted_pool_state p;
                 pool_state_commitment := pool_state_commitment p;
                 pool_state_initialized := pool_state_initialized p;
                 pool_last_update_ts := now |} in
    Done {| obligation := ob'; pool := p'; balances := bal |}
  end.

Section KeccakCallbacks.

Variable keccak : list Z -> list Z.

(** borrow/callback.rs, [borrow_callback_handler].  The tokens go to the
    account the caller passes as [user_borrow_account]. *)
Definition borrow_callback_handler (user_borrow_account : TokenAccount) (l : Ledger)
    (now : Z) (output : option ComputationResult) : outcome Ledger :=
  match output with
  | None => Failed AbortedComputation
  | Some res =>
    let user_output := user_ciphertexts res in
    let? _ := lift (require (6 <=? length user_output)%nat InvalidComputationOutput) in
    let approved := negb (byte0 (nth 4 user_output []) =? 0) in
    let? _ := require_approved approved BorrowRejected in
    let borrow_amount := u64_from_le_bytes (nth 5 user_output []) in
    let? _ := lift (require (0 <? borrow_amount) InvalidBorrowAmount) in
    let? _ := lift (require (borrow_amount <=? balances l BorrowVault)
                      InsufficientLiquidity) in
    let? bal := lift (token_transfer (balances l) BorrowVault user_borrow_account
                        borrow_amount) in
    let ob := obligation l in
    let? nonce := lift (checked_add_u128 (state_nonce ob) 1) in
    let? state_ciphertexts := lift (first_four user_output) in
    let blob := concat state_ciphertexts in
    let ob' := {| encrypted_state_blob := blob;
                  state_commitment := keccak blob;
                  total_funded := total_funded ob;
                  total_claimed := total_claimed ob;
                  state_nonce := nonce;
                  ob_last_update_ts := now |} in
    let p := pool l in
    let p' := {| encrypted_pool_state := encrypted_pool_state p;
                 pool_state_commitment := pool_state_commitment p;
                 pool_state_initialized := pool_state_initialized p;
                 pool_last_update_ts := now |} in
    Done {| obligation := ob'; pool := p'; balances := bal |}
  end.

(** interest/callback.rs, [update_interest_callback_handler]. *)
Definition update_interest_callback_handler (l : Ledger) (now : Z)
    (output : option ComputationResult) : result Ledger :=
  match output with
  | None => Err AbortedComputation
  | Some res =>
    let user_output := user_ciphertexts res in
    let! _ := require (5 <=? length user_output)%nat InvalidComputationOutput in
    let ob := obligation l in
    let! nonce := checked_add_u128 (state_nonce ob) 1 in
    let blob := concat (firstn 4 user_output) in
    let ob' := {| encrypted_state_blob := blob;
                  state_commitment := keccak blob;
                  total_funded := total_funded ob;
                  total_claimed := total_claimed ob;
                  state_nonce := nonce;
                  ob_last_update_ts := now |} in
    let! p' := store_pool_output keccak (pool l) now (pool_ciphertexts res) in
    Ok {| obligation := ob'; pool := p'; balances := balances l |}
  end.

End KeccakCallbacks.

(** All token accounts, and the tokens they hold together. *)
Definition all_accounts : list TokenAccount :=
  [UserTokenAccount; CollateralVault; BorrowVault;
   LiquidatorCollateralAccount; LiquidatorBorrowAccount].

Definition total_tokens (bal : TokenAccount -> Z) : Z :=
  fold_right Z.add 0 (map bal all_accounts).

Definition balances_nonneg (bal : TokenAccount -> Z) : Prop :=
  forall a, 0 <= bal a.

(** The ledger an outcome commits, [l] when it does not. *)
Definition commit (l : Ledger) (o : outcome Ledger) : Ledger :=
  match o with
  | Done l' => l'
  | _ => l
  end.
(** [Ok] or not. *)
Definition is_ok {A} (r : result A) : bool :=
  match r with
  | Ok _ => true
  | Err _ => false
  end.

(** The balances after a callback: unchanged, or one transfer between two
    distinct accounts. *)
Definition moves_tokens (bal bal' : TokenAccount -> Z) : Prop :=
  bal' = bal \/
  exists from to amount, from <> to /\ 0 <= amount /\
                         token_transfer bal from to amount = Ok bal'.

(** Collateral in the vault beyond what the obligation's public trackers
    account for ([total_funded - total_claimed]). *)
Definition collateral_gap (l : Ledger) : Z :=
  balances l CollateralVault - (total_funded (obligation l) - total_claimed (obligation l)).

(** [acc] with its first [length c] bytes XORed with the bytes of [c]. *)
Fixpoint xor_into (acc c : list Z) : list Z :=
  match acc, c with
  | x :: acc', b :: c' => Z.lxor x b :: xor_into acc' c'
  | _, _ => acc
  end.

(** Sample inputs. *)
Definition sample_user : UserState := mkUserState 1000 100 10 0.

Definition sample_pool : PoolState := mkPoolState 5000 800 50 2000.

(** Every token account holds 1000 tokens; the obligation is at nonce 0. *)
Definition sample_ledger : Ledger :=
  mkLedger (mkUserObligation (repeat 0 128) (repeat 0 32) 0 0 0 0)
           (mkPool (repeat 0 128) (repeat 0 32) true 0)
           (fun _ => 1000).

(** A verified output with the given user ciphertexts and four pool
    ciphertexts. *)
Definition sample_output (user : list ciphertext) : option ComputationResult :=
  Some {| user_ciphertexts := user; pool_ciphertexts := repeat (ct 0) 4 |}.

Definition sample_keccak (blob : list Z) : list Z := firstn 32 blob.

(** Deposit and withdraw outputs: flag 1 in ciphertext 0, amount 5 last. *)
Definition sample_transfer_output : option ComputationResult :=
  sample_output [ct 1; ct 0; ct 0; ct 0; ct 5].

(** Borrow output: approved in ciphertext 4, amount 5 in ciphertext 5. *)
Definition sample_borrow_output : option ComputationResult :=
  sample_output [ct 0; ct 0; ct 0; ct 0; ct 1; ct 5].

(* ================================================================= *)
(** ** Facts used by the properties below *)

Lemma bool_as_u128_cases (b : bool) : bool_as_u128 b = 0 \/ bool_as_u128 b = 1.
Proof. destruct b; [right | left]; reflexivity. Qed.

Lemma mul_1_l_u128 (a : Z) : U128.in_range a -> U128.mul 1 a = a.
Proof. intros H. unfold U128.mul. rewrite Z.mul_1_l. apply wrap_small, H. Qed.

(** Case split on the flag a circuit converts with [as u128]. *)
Ltac flag_cases :=
  match goal with |- context [bool_as_u128 ?x] => destruct x end; cbn [bool_as_u128].

Lemma token_transfer_ok (bal : TokenAccount -> Z) (from to : TokenAccount) (amount : Z)
    (bal' : TokenAccount -> Z) :
  token_transfer bal from to amount = Ok bal' ->
  amount <= bal from /\
  bal' = (fun a => if token_account_eqb a from then bal a - amount
                   else if token_account_eqb a to then bal a + amount
                   else bal a).
Proof.
  unfold token_transfer. destruct (amount <=? bal from) eqn:E; intros H; [|discriminate H].
  injection H as <-. split; [apply Z.leb_le, E | reflexivity].
Qed.

Lemma checked_add_u128_ok (a b n : Z) :
  checked_add_u128 a b = Ok n -> n = a + b /\ n < U128.modulus.
Proof.
  unfold checked_add_u128. destruct (a + b <? U128.modulus) eqn:E; intros H; [|discriminate H].
  injection H as <-. split; [reflexivity | apply Z.ltb_lt, E].
Qed.

Lemma checked_add_u64_ok (a b n : Z) :
  checked_add_u64 a b = Ok n -> n = a + b /\ n < U64.modulus.
Proof.
  unfold checked_add_u64. destruct (a + b <? U64.modulus) eqn:E; intros H; [|discriminate H].
  injection H as <-. split; [reflexivity | apply Z.ltb_lt, E].
Qed.

(** One step of a callback that reached [Ok] (or [Done]): the failing
    branch is closed, the succeeding one is kept with its equation. *)
Ltac step H :=
  let E := fresh "E" in
  match type of H with
  | context [bind_result (require ?b _) _] =>
      destruct b eqn:E; cbn [require bind_result] in H; [|discriminate H]
  | context [bind_outcome (lift (require ?b _)) _] =>
      destruct b eqn:E; cbn [require lift bind_outcome] in H; [|discriminate H]
  | context [bind_outcome (require_approved ?b _) _] =>
      destruct b eqn:E; cbn [require_approved bind_outcome] in H; [|discriminate H]
  | context [bind_outcome (lift ?m) _] =>
      destruct m eqn:E; cbn [lift bind_outcome] in H; [|discriminate H]
  | context [bind_result ?m _] =>
      destruct m eqn:E; cbn [bind_result] in H; [|discriminate H]
  end.

Lemma store_pool_output_ok (keccak : list Z -> list Z) (p : Pool) (now : Z)
    (pool_output : list ciphertext) (p' : Pool) :
  store_pool_output keccak p now pool_output = Ok p' ->
  (4 <= length pool_output)%nat /\
  p' = {| encrypted_pool_state := concat (firstn 4 pool_output);
          pool_state_commitment := keccak (concat (firstn 4 pool_output));
          pool_state_initialized := true;
          pool_last_update_ts := now |}.
Proof.
  unfold store_pool_output. intros H. repeat step H.
  unfold first_four in E0.
  destruct (length pool_output <? 4)%nat eqn:E4; [discriminate E0|].
  injection E0 as <-. injection H as <-. split; [apply Nat.ltb_ge, E4 | reflexivity].
Qed.

Lemma token_transfer_total (bal : TokenAccount -> Z) (from to : TokenAccount) (amount : Z)
    (bal' : TokenAccount -> Z) :
  from <> to -> token_transfer bal from to amount = Ok bal' ->
  total_tokens bal' = total_tokens bal.
Proof.
  intros Hne H. apply token_transfer_ok in H as [_ ->].
  unfold total_tokens. destruct from, to; cbn; try congruence; lia.
Qed.

Lemma token_transfer_nonneg (bal : TokenAccount -> Z) (from to : TokenAccount) (amount : Z)
    (bal' : TokenAccount -> Z) :
  0 <= amount -> balances_nonneg bal -> token_transfer bal from to amount = Ok bal' ->
  balances_nonneg bal'.
Proof.
  intros Ha Hb H a. apply token_transfer_ok in H as [Hle ->].
  pose proof (Hb a). destruct a, from, to; cbn; lia.
Qed.

Lemma moves_tokens_conserve (bal bal' : TokenAccount -> Z) :
  moves_tokens bal bal' ->
  total_tokens bal' = total_tokens bal /\ (balances_nonneg bal -> balances_nonneg bal').
Proof.
  intros [-> | (from & to & amount & Hne & Ha & H)].
  - split; auto.
  - split; [apply (token_transfer_total bal from to amount); assumption|].
    intros Hb. apply (token_transfer_nonneg bal from to amount); assumption.
Qed.

Ltac moved :=
  right; do 3 eexists; split; [|split; [|eassumption]]; [discriminate | lia].

Lemma deposit_callback_moves (l : Ledger) (now : Z) (output : option ComputationResult)
    (l' : Ledger) :
  deposit_callback_handler l now output = Ok l' -> moves_tokens (balances l) (balances l').
Proof.
  intros H. destruct output as [res|]; [|discriminate H]. unfold deposit_callback_handler in H.
  repeat step H. injection H as <-. cbn. apply Z.ltb_lt in E1. moved.
Qed.

Lemma withdraw_callback_moves (l : Ledger) (now : Z) (output : option ComputationResult)
    (l' : Ledger) :
  withdraw_callback_handler l now output = Done l' -> moves_tokens (balances l) (balances l').
Proof.
  intros H. destruct output as [res|]; [|discriminate H]. unfold withdraw_callback_handler in H.
  repeat step H. injection H as <-. cbn. apply Z.ltb_lt in E1. moved.
Qed.

Lemma borrow_callback_moves (keccak : list Z -> list Z) (user_borrow_account : TokenAccount)
    (l : Ledger) (now : Z) (output : option ComputationResult) (l' : Ledger) :
  user_borrow_account <> BorrowVault ->
  borrow_callback_handler keccak user_borrow_account l now output = Done l' ->
  moves_tokens (balances l) (balances l').
Proof.
  intros Hd H. destruct output as [res|]; [|discriminate H]. unfold borrow_callback_handler in H.
  repeat step H. injection H as <-. cbn. apply Z.ltb_lt in E1.
  right. do 3 eexists. split; [|split; [|eassumption]]; [congruence | lia].
Qed.

Lemma repay_callback_moves (keccak : list Z -> list Z) (l : Ledger) (now : Z)
    (output : option ComputationResult) (l' : Ledger) :
  repay_callback_handler keccak l now output = Ok l' -> moves_tokens (balances l) (balances l').
Proof.
  intros H. destruct output as [res|]; [|discriminate H]. unfold repay_callback_handler in H.
  repeat step H. injection H as <-. left. reflexivity.
Qed.

Lemma interest_callback_moves (keccak : list Z -> list Z) (l : Ledger) (now : Z)
    (output : option ComputationResult) (l' : Ledger) :
  update_interest_callback_handler keccak l now output = Ok l' ->
  moves_tokens (balances l) (balances l').
Proof.
  intros H. destruct output as [res|]; [|discriminate H].
  unfold update_interest_callback_handler in H.
  repeat step H. injection H as <-. left. reflexivity.
Qed.

Lemma liquidate_callback_moves (keccak : list Z -> list Z) (l : Ledger) (now : Z)
    (output : option ComputationResult) (l' : Ledger) :
  liquidate_callback_handler keccak l now output = Ok l' ->
  moves_tokens (balances l) (balances l').
Proof.
  intros H. destruct output as [res|]; [|discriminate H].
  unfold liquidate_callback_handler in H. step H.
  destruct (negb (byte0 (nth 4 (user_ciphertexts res) []) =? 0)).
  - repeat step H. injection H as <-. cbn. apply Z.ltb_lt in E1. moved.
  - destruct (0 <? u64_from_le_bytes (nth 5 (user_ciphertexts res) [])) eqn:Hpos.
    + step H. injection H as <-. cbn. apply Z.ltb_lt in Hpos. moved.
    + cbn in H. injection H as <-. left. reflexivity.
Qed.

Lemma xor_into_length (acc c : list Z) : length (xor_into acc c) = length acc.
Proof.
  revert c; induction acc as [|x acc IH]; intros [|b c]; cbn; auto.
Qed.

Lemma xor_into_nth (acc c : list Z) (j : nat) :
  (j < length acc)%nat -> (j < length c)%nat ->
  nth j (xor_into acc c) 0 = Z.lxor (nth j acc 0) (nth j c 0).
Proof.
  revert c j; induction acc as [|x acc IH]; intros [|b c] j Ha Hc; cbn in *; try lia.
  destruct j as [|j]; [reflexivity|]. apply IH; lia.
Qed.

Lemma xor_into_zeros (c : list Z) : xor_into (repeat 0 (length c)) c = c.
Proof. induction c as [|b c IH]; cbn; [reflexivity|]. rewrite IH. reflexivity. Qed.

Lemma update_nth_app (acc1 acc2 : list Z) (x : Z) (f : Z -> Z) :
  update_nth (length acc1) f (acc1 ++ x :: acc2) = acc1 ++ f x :: acc2.
Proof. induction acc1 as [|y acc1 IH]; cbn; [reflexivity|]. rewrite IH. reflexivity. Qed.

Lemma xor_fold_app (i : nat) (a b acc : list Z) :
  xor_fold i (a ++ b) acc = xor_fold (i + length a) b (xor_fold i a acc).
Proof.
  revert i acc; induction a as [|x a IH]; intros i acc; cbn.
  - rewrite Nat.add_0_r. reflexivity.
  - rewrite IH. f_equal. lia.
Qed.

Lemma xor_fold_chunk (c acc1 acc2 : list Z) (i : nat) :
  (c = [] \/ Nat.modulo i 32 = length acc1) ->
  (length acc1 + length c <= 32)%nat -> (length acc1 + length acc2 = 32)%nat ->
  xor_fold i c (acc1 ++ acc2) = acc1 ++ xor_into acc2 c.
Proof.
  revert acc1 acc2 i; induction c as [|b c IH]; intros acc1 acc2 i Hi Hc Ha.
  - cbn. destruct acc2; reflexivity.
  - destruct Hi as [Hi | Hi]; [discriminate Hi|].
    destruct acc2 as [|x acc2]; cbn [length xor_fold xor_into] in *; [lia|].
    rewrite Hi, update_nth_app.
    replace (acc1 ++ Z.lxor x b :: acc2) with ((acc1 ++ [Z.lxor x b]) ++ acc2)
      by (rewrite <- app_assoc; reflexivity).
    rewrite IH; rewrite ?length_app; cbn [length].
    + rewrite <- app_assoc. reflexivity.
    + destruct c as [|b' c]; [left; reflexivity | right]. cbn [length] in Hc.
      rewrite <- Nat.add_1_r, Nat.Div0.add_mod, Hi by lia.
      rewrite (Nat.mod_small 1) by lia. rewrite Nat.mod_small; lia.
    + lia.
    + lia.
Qed.

Lemma xor_fold_block (i : nat) (c acc : list Z) :
  Nat.modulo i 32 = 0%nat -> length c = 32%nat -> length acc = 32%nat ->
  xor_fold i c acc = xor_into acc c.
Proof.
  intros Hi Hc Ha. apply (xor_fold_chunk c [] acc i); [right; exact Hi | cbn [length]; lia ..].
Qed.

(* ================================================================= *)
(** ** Properties of the circuits and callbacks *)

(** [compute_confidential_deposit]: with in-range states and no overflow, the deposit succeeds exactly when [amount <= max_creditable]; then the user's deposit and the pool's [total_deposits] both grow by [amount], otherwise both are unchanged; the other fields are kept and the circuit performs no subtraction. *)
Theorem deposit_credit_within_cap (amount max_creditable : Z) (u : UserState) (p : PoolState)
    (Hu : user_ok u) (Hp : pool_ok p) (Ha : 0 <= amount)
    (Hd : deposit_amount u + amount < U128.modulus)
    (Ht : total_deposits p + amount < U128.modulus) :
  let r := value (compute_confidential_deposit amount u p max_creditable) in
  let credit := if dep_success (fst r) then amount else 0 in
  dep_success (fst r) = (amount <=? max_creditable) /\
  dep_new_user_state (fst r) =
    mkUserState (deposit_amount u + credit) (borrow_amount u) (accrued_interest u)
                (last_interest_calc_ts u) /\
  snd r = mkPoolState (total_deposits p + credit) (total_borrows p)
                      (accumulated_interest p) (available_borrow_liquidity p) /\
  subtractions (compute_confidential_deposit amount u p max_creditable) = [].
Proof.
  destruct u as [d b i ts], p as [td tb ai av]; unfold user_ok, pool_ok in *; cbn in *.
  destruct Hu as (Hd0 & _), Hp as (Ht0 & _).
  unfold_circuit; cbn.
  destruct (amount <=? max_creditable); cbn.
  - unfold U128.mul. rewrite Z.mul_1_l, (wrap_small amount) by bounds.
    rewrite !add_small by bounds. repeat split.
  - rewrite !Z.add_0_r, !add_0_r_u128 by assumption. repeat split.
Qed.

(** [compute_confidential_borrow]: for an in-range amount and pool, none of the circuit's subtractions underflows. *)
Theorem borrow_never_underflows (amt : Z) (u : UserState) (p : PoolState)
    (cp bp ltv : Z) (Hp : pool_ok p) (Ha : U128.in_range amt) :
  forallb (fun s => negb (underflows s))
          (subtractions (compute_confidential_borrow amt u p cp bp ltv)) = true.
Proof.
  destruct p as [td tb ai av]; destruct Hp as (_ & _ & _ & Hav); cbn in *.
  unfold_circuit; cbn.
  destruct (_ <=? _); destruct (amt <=? av) eqn:E; cbn;
    unfold underflows; cbn; rewrite ?andb_true_r, ?andb_true_l.
  all: try (unfold U128.mul; rewrite Z.mul_1_l, wrap_small by bounds).
  all: try rewrite mul_0_l_u128.
  all: apply negb_true_iff, Z.ltb_ge; try apply Z.leb_le in E; bounds.
Qed.

(** [compute_confidential_borrow]: with in-range states and no overflow, an approved borrow adds [amount] to the user's borrow and to [total_borrows] and removes it from [available_borrow_liquidity]; a rejected one changes nothing.  [total_borrows + available_borrow_liquidity] is preserved and the liquidity stays non-negative. *)
Theorem borrow_moves_liquidity_to_debt (amt : Z) (u : UserState) (p : PoolState)
    (cp bp ltv : Z) (Hu : user_ok u) (Hp : pool_ok p) (Ha : 0 <= amt)
    (Hb : borrow_amount u + amt < U128.modulus)
    (Ht : total_borrows p + amt < U128.modulus) :
  let r := value (compute_confidential_borrow amt u p cp bp ltv) in
  let delta := if bor_approved (fst r) then amt else 0 in
  bor_new_user_state (fst r) =
    mkUserState (deposit_amount u) (borrow_amount u + delta) (accrued_interest u)
                (last_interest_calc_ts u) /\
  snd r = mkPoolState (total_deposits p) (total_borrows p + delta)
                      (accumulated_interest p) (available_borrow_liquidity p - delta) /\
  total_borrows (snd r) + available_borrow_liquidity (snd r) =
    total_borrows p + available_borrow_liquidity p /\
  0 <= available_borrow_liquidity (snd r).
Proof.
  destruct u as [d b i ts], p as [td tb ai av]; unfold user_ok, pool_ok in *; cbn in *.
  destruct Hu as (Hd0 & Hb0 & _), Hp as (_ & Ht0 & _ & Hav).
  unfold_circuit; cbn.
  destruct (_ <=? _); destruct (amt <=? av) eqn:E; cbn.
  - apply Z.leb_le in E.
    unfold U128.mul. rewrite Z.mul_1_l, (wrap_small amt) by bounds.
    rewrite !add_small by bounds. rewrite sub_small by bounds.
    repeat split; lia.
  - rewrite !Z.add_0_r, !Z.sub_0_r, !add_0_r_u128 by assumption.
    rewrite wrap_small by bounds. repeat split; bounds.
  - rewrite !Z.add_0_r, !Z.sub_0_r, !add_0_r_u128 by assumption.
    rewrite wrap_small by bounds. repeat split; bounds.
  - rewrite !Z.add_0_r, !Z.sub_0_r, !add_0_r_u128 by assumption.
    rewrite wrap_small by bounds. repeat split; bounds.
Qed.

(** [compute_confidential_withdraw]: of its subtractions, only the one on the pool's [total_deposits] (the third) can underflow. *)
Theorem withdraw_only_pool_deposits_can_underflow (w : Z) (u : UserState) (p : PoolState)
    (cp bp ltv : Z) (Hw : 0 <= w) (Hd : U128.in_range (deposit_amount u)) :
  forall i s,
  nth_error (subtractions (compute_confidential_withdraw w u p cp bp ltv)) i = Some s ->
  i <> 2%nat -> underflows s = false.
Proof.
  unfold_circuit. intros i s H Hi.
  destruct u as [d b a ts]; unfold U128.in_range in Hd; cbn in Hd.
  destruct i as [|[|[|[|i]]]]; cbn in H; try discriminate; try congruence;
    injection H as <-; unfold underflows; cbn; apply Z.ltb_ge.
  - lia.
  - match goal with
    | |- context [bool_as_u128 ?x] => destruct (bool_as_u128_cases x) as [-> | ->]
    end.
    + rewrite mul_0_l_u128. lia.
    + unfold U128.mul. rewrite Z.mul_1_l, wrap_small; bounds.
Qed.

(** [compute_confidential_withdraw]: with in-range states and [min amount deposit <= total_deposits], an approved withdrawal removes [min amount deposit] from the user's deposit and from the pool's [total_deposits]; a rejected one changes neither.  The other fields are kept. *)
Theorem withdraw_debits_user_and_pool_equally (w : Z) (u : UserState) (p : PoolState)
    (cp bp ltv : Z) (Hu : user_ok u) (Hp : pool_ok p) (Hw : 0 <= w)
    (Ht : Z.min w (deposit_amount u) <= total_deposits p) :
  let r := value (compute_confidential_withdraw w u p cp bp ltv) in
  let delta := if wd_approved (fst r) then Z.min w (deposit_amount u) else 0 in
  wd_new_user_state (fst r) =
    mkUserState (deposit_amount u - delta) (borrow_amount u) (accrued_interest u)
                (last_interest_calc_ts u) /\
  snd r = mkPoolState (total_deposits p - delta) (total_borrows p)
                      (accumulated_interest p) (available_borrow_liquidity p).
Proof.
  destruct u as [d b i ts], p as [td tb ai av]; unfold user_ok, pool_ok in *; cbn in *.
  destruct Hu as (Hd0 & _), Hp as (Ht0 & _).
  unfold_circuit; cbn. flag_cases.
  - unfold U128.mul. rewrite Z.mul_1_l, (wrap_small (Z.min w d)) by bounds.
    rewrite !sub_small by bounds. split; reflexivity.
  - rewrite mul_0_l_u128, !Z.sub_0_r, !wrap_small by bounds. split; reflexivity.
Qed.

(** [compute_confidential_withdraw]: a user with no borrow and no accrued interest is always approved and loses [min amount deposit] of deposit; the pool's [total_deposits] loses the same amount modulo 2^128 (it wraps when the pool holds less). *)
Theorem withdraw_without_debt_approved (w : Z) (u : UserState) (p : PoolState)
    (cp bp ltv : Z) (Hu : user_ok u) (Hp : pool_ok p) (Hw : 0 <= w)
    (Hb : borrow_amount u = 0) (Hi : accrued_interest u = 0) :
  let r := value (compute_confidential_withdraw w u p cp bp ltv) in
  wd_approved (fst r) = true /\
  deposit_amount (wd_new_user_state (fst r)) = deposit_amount u - Z.min w (deposit_amount u) /\
  total_deposits (snd r) = U128.wrap (total_deposits p - Z.min w (deposit_amount u)).
Proof.
  destruct u as [d b i ts], p as [td tb ai av]; unfold user_ok, pool_ok in *; cbn in *.
  subst b i. destruct Hu as (Hd0 & _), Hp as (Ht0 & _).
  unfold_circuit; cbn.
  rewrite !mul_1_l_u128 by bounds.
  rewrite (sub_small d (Z.min w d)) by bounds. repeat split.
Qed.


(** [compute_confidential_repay]: none of the circuit's subtractions underflows, for any input. *)
Theorem repay_never_underflows (repay_amount : Z) (u : UserState) (p : PoolState) :
  forallb (fun s => negb (underflows s))
          (subtractions (compute_confidential_repay repay_amount u p)) = true.
Proof.
  unfold_circuit. cbn. unfold underflows. cbn.
  rewrite !andb_true_r.
  repeat (apply andb_true_intro; split); apply negb_true_iff, Z.ltb_ge; lia.
Qed.

(** [compute_confidential_repay]: with in-range states and no overflow, the user's debt (borrow plus interest) falls by [actual_repay = min amount debt], the pool's available liquidity rises by [actual_repay], [accumulated_interest] rises by the interest paid, and the repay succeeds exactly when [actual_repay > 0]. *)
Theorem repay_returns_debt_to_liquidity (repay_amount : Z) (u : UserState) (p : PoolState)
    (Hu : user_ok u) (Hp : pool_ok p) (Hr : 0 <= repay_amount)
    (Hdebt : borrow_amount u + accrued_interest u + available_borrow_liquidity p
             < U128.modulus)
    (Hacc : accumulated_interest p + accrued_interest u < U128.modulus) :
  let r := value (compute_confidential_repay repay_amount u p) in
  let u' := rep_new_user_state (fst r) in
  let actual_repay := Z.min repay_amount (borrow_amount u + accrued_interest u) in
  borrow_amount u' + accrued_interest u' =
    borrow_amount u + accrued_interest u - actual_repay /\
  available_borrow_liquidity (snd r) = available_borrow_liquidity p + actual_repay /\
  accumulated_interest (snd r) =
    accumulated_interest p + (accrued_interest u - accrued_interest u') /\
  rep_success (fst r) = (0 <? actual_repay).
Proof.
  destruct u as [d b i ts], p as [td tb ai av]; unfold user_ok, pool_ok in *; cbn in *.
  destruct Hu as (Hd0 & Hb0 & Hi0 & _), Hp as (Ht0 & Htb0 & Hai0 & Hav0).
  unfold_circuit; cbn.
  rewrite (add_small b i) by bounds.
  rewrite (sub_small (Z.min repay_amount (b + i))), (sub_small i), (sub_small b) by bounds.
  rewrite !add_small by bounds.
  repeat split; try reflexivity; bounds.
Qed.

(** [compute_confidential_liquidate]: of its subtractions, only the one on the pool's [total_deposits] (the fifth) can underflow, for any input. *)
Theorem liquidate_only_pool_deposits_can_underflow (repay_amount : Z) (u : UserState)
    (p : PoolState) (cp bp thr bonus : Z) :
  forall i s,
  nth_error (subtractions (compute_confidential_liquidate repay_amount u p cp bp thr bonus)) i
    = Some s ->
  i <> 4%nat -> underflows s = false.
Proof.
  unfold_circuit. intros i s H Hi.
  destruct i as [|[|[|[|[|[|[|i]]]]]]]; cbn in H; try discriminate; try congruence;
    injection H as <-; unfold underflows; cbn; apply Z.ltb_ge; lia.
Qed.

(** [compute_confidential_liquidate]: when the position is not liquidated, the user state and the pool state are returned unchanged. *)
Theorem liquidate_healthy_position_untouched (repay_amount : Z) (u : UserState)
    (p : PoolState) (cp bp thr bonus : Z) (Hu : user_ok u) (Hp : pool_ok p)
    (Hh : liq_liquidated (fst (value (compute_confidential_liquidate repay_amount u p
                                        cp bp thr bonus))) = false) :
  liq_new_user_state (fst (value (compute_confidential_liquidate repay_amount u p
                                    cp bp thr bonus))) = u /\
  snd (value (compute_confidential_liquidate repay_amount u p cp bp thr bonus)) = p.
Proof.
  destruct u as [d b i ts], p as [td tb ai av]; unfold user_ok, pool_ok in *; cbn in *.
  destruct Hu as (Hd0 & Hb0 & Hi0 & _), Hp as (Ht0 & Htb0 & Hai0 & Hav0).
  revert Hh. unfold_circuit; cbn. intros Hh. rewrite Hh. cbn [bool_as_u128].
  rewrite mul_0_l_u128, (Z.min_l 0 (U128.add b i))
    by (pose proof (wrap_range (b + i)); unfold U128.add; lia).
  rewrite mul_0_l_u128. unfold U128.div. rewrite Z.div_0_l by lia.
  rewrite (Z.min_l 0 d), (Z.min_l 0 i) by bounds.
  replace (U128.wrap (0 - 0)) with 0 by reflexivity.
  rewrite (Z.min_l 0 b), (Z.min_l 0 tb) by bounds.
  rewrite !Z.sub_0_r, !wrap_small by bounds.
  rewrite add_0_r_u128 by bounds. split; reflexivity.
Qed.

(** [deposit_callback_handler]: on success, some [0 < amount <= user balance] moves from the user's token account to the collateral vault (no other account changes), [total_funded] grows by [amount] and stays below 2^64, [total_claimed] is kept and the nonce grows by one without reaching 2^128. *)
Theorem deposit_callback_accounting (l : Ledger) (now : Z)
    (output : option ComputationResult) (l' : Ledger)
    (H : deposit_callback_handler l now output = Ok l') :
  exists amount,
    0 < amount <= balances l UserTokenAccount /\
    balances l' UserTokenAccount = balances l UserTokenAccount - amount /\
    balances l' CollateralVault = balances l CollateralVault + amount /\
    (forall a, a <> UserTokenAccount -> a <> CollateralVault ->
               balances l' a = balances l a) /\
    total_funded (obligation l') = total_funded (obligation l) + amount /\
    total_funded (obligation l') < U64.modulus /\
    total_claimed (obligation l') = total_claimed (obligation l) /\
    state_nonce (obligation l') = state_nonce (obligation l) + 1 /\
    state_nonce (obligation l') < U128.modulus.
Proof.
  destruct output as [res|]; [|discriminate H]. unfold deposit_callback_handler in H.
  repeat step H. injection H as <-.
  remember (u64_from_le_bytes (last (user_ciphertexts res) [])) as amt eqn:Hamt.
  cbn.
  apply token_transfer_ok in E2 as [Hle ->].
  apply checked_add_u128_ok in E3 as [-> Hn].
  apply checked_add_u64_ok in E5 as [-> Hf].
  apply Z.ltb_lt in E1.
  exists amt. repeat split; try bounds.
  intros a Ha1 Ha2. destruct a; cbn; congruence.
Qed.

(** [withdraw_callback_handler]: on success, some [0 < amount <= vault balance] moves from the collateral vault to the user's token account (no other account changes), [total_claimed] grows by [amount] and stays below 2^64, [total_funded] is kept, the nonce grows by one without reaching 2^128, and the pool account only gets its timestamp updated. *)
Theorem withdraw_callback_accounting (l : Ledger) (now : Z)
    (output : option ComputationResult) (l' : Ledger)
    (H : withdraw_callback_handler l now output = Done l') :
  exists amount,
    0 < amount <= balances l CollateralVault /\
    balances l' CollateralVault = balances l CollateralVault - amount /\
    balances l' UserTokenAccount = balances l UserTokenAccount + amount /\
    (forall a, a <> CollateralVault -> a <> UserTokenAccount ->
               balances l' a = balances l a) /\
    total_claimed (obligation l') = total_claimed (obligation l) + amount /\
    total_claimed (obligation l') < U64.modulus /\
    total_funded (obligation l') = total_funded (obligation l) /\
    state_nonce (obligation l') = state_nonce (obligation l) + 1 /\
    state_nonce (obligation l') < U128.modulus /\
    pool l' = {| encrypted_pool_state := encrypted_pool_state (pool l);
                 pool_state_commitment := pool_state_commitment (pool l);
                 pool_state_initialized := pool_state_initialized (pool l);
                 pool_last_update_ts := now |}.
Proof.
  destruct output as [res|]; [|discriminate H]. unfold withdraw_callback_handler in H.
  repeat step H. injection H as <-.
  remember (u64_from_le_bytes (last (user_ciphertexts res) [])) as amt eqn:Hamt.
  cbn.
  apply token_transfer_ok in E3 as [Hle ->].
  apply checked_add_u128_ok in E4 as [-> Hn].
  apply checked_add_u64_ok in E6 as [-> Hc].
  apply Z.ltb_lt in E1.
  exists amt. repeat split; try bounds.
  intros a Ha1 Ha2. destruct a; cbn; congruence.
Qed.

(** [borrow_callback_handler]: on success, with a destination other than the borrow vault, some [0 < amount <= vault balance] moves from the borrow vault to the destination (no other account changes), [total_funded] and [total_claimed] are kept, the nonce grows by one without reaching 2^128 and the commitment is the hash of the new state blob. *)
Theorem borrow_callback_accounting (keccak : list Z -> list Z)
    (user_borrow_account : TokenAccount) (Hdest : user_borrow_account <> BorrowVault)
    (l : Ledger) (now : Z) (output : option ComputationResult) (l' : Ledger)
    (H : borrow_callback_handler keccak user_borrow_account l now output = Done l') :
  exists amount,
    0 < amount <= balances l BorrowVault /\
    balances l' BorrowVault = balances l BorrowVault - amount /\
    balances l' user_borrow_account = balances l user_borrow_account + amount /\
    (forall a, a <> BorrowVault -> a <> user_borrow_account ->
               balances l' a = balances l a) /\
    total_funded (obligation l') = total_funded (obligation l) /\
    total_claimed (obligation l') = total_claimed (obligation l) /\
    state_nonce (obligation l') = state_nonce (obligation l) + 1 /\
    state_nonce (obligation l') < U128.modulus /\
    state_commitment (obligation l') = keccak (encrypted_state_blob (obligation l')).
Proof.
  destruct output as [res|]; [|discriminate H]. unfold borrow_callback_handler in H.
  repeat step H. injection H as <-.
  remember (u64_from_le_bytes (nth 5 (user_ciphertexts res) [])) as amt eqn:Hamt.
  cbn.
  apply token_transfer_ok in E3 as [Hle ->].
  apply checked_add_u128_ok in E4 as [-> Hn].
  apply Z.ltb_lt in E1.
  exists amt. repeat split; try bounds.
  - cbn. destruct user_borrow_account; cbn; congruence.
  - intros a Ha1 Ha2. destruct a, user_borrow_account; cbn; congruence.
Qed.

(** [liquidate_callback_handler]: on success, either some [0 < seized <= vault balance] moves from the collateral vault to the liquidator's collateral account (no other account changes), [total_funded] and [total_claimed] are kept, the nonce grows by one without reaching 2^128, the obligation stores the first four user ciphertexts with the hash of their concatenation, and the pool stores the first four of at least four pool ciphertexts with their hash and is marked initialized; or the obligation and the pool are unchanged and at most a refund moves from the borrow vault to the liquidator's borrow account. *)
Theorem liquidate_callback_accounting (keccak : list Z -> list Z) (l : Ledger) (now : Z)
    (res : ComputationResult) (l' : Ledger)
    (H : liquidate_callback_handler keccak l now (Some res) = Ok l') :
  (exists seized,
     0 < seized <= balances l CollateralVault /\
     balances l' CollateralVault = balances l CollateralVault - seized /\
     balances l' LiquidatorCollateralAccount = balances l LiquidatorCollateralAccount + seized /\
     (forall a, a <> CollateralVault -> a <> LiquidatorCollateralAccount ->
                balances l' a = balances l a) /\
     total_funded (obligation l') = total_funded (obligation l) /\
     total_claimed (obligation l') = total_claimed (obligation l) /\
     state_nonce (obligation l') = state_nonce (obligation l) + 1 /\
     state_nonce (obligation l') < U128.modulus /\
     encrypted_state_blob (obligation l') = concat (firstn 4 (user_ciphertexts res)) /\
     state_commitment (obligation l') = keccak (encrypted_state_blob (obligation l')) /\
     (4 <= length (pool_ciphertexts res))%nat /\
     encrypted_pool_state (pool l') = concat (firstn 4 (pool_ciphertexts res)) /\
     pool_state_commitment (pool l') = keccak (encrypted_pool_state (pool l')) /\
     pool_state_initialized (pool l') = true) \/
  (obligation l' = obligation l /\ pool l' = pool l /\
   (balances l' = balances l \/
    exists refund,
      0 < refund <= balances l BorrowVault /\
      balances l' BorrowVault = balances l BorrowVault - refund /\
      balances l' LiquidatorBorrowAccount = balances l LiquidatorBorrowAccount + refund /\
      (forall a, a <> BorrowVault -> a <> LiquidatorBorrowAccount ->
                 balances l' a = balances l a))).
Proof.
  unfold liquidate_callback_handler in H.
  step H.
  destruct (negb (byte0 (nth 4 (user_ciphertexts res) []) =? 0)).
  - left. repeat step H. injection H as <-.
    remember (u64_from_le_bytes (nth 6 (user_ciphertexts res) [])) as amt eqn:Hamt.
    cbn.
    apply token_transfer_ok in E3 as [Hle ->].
    apply checked_add_u128_ok in E4 as [-> Hn].
    apply store_pool_output_ok in E5 as [Hlen ->].
    apply Z.ltb_lt in E1.
    exists amt. repeat split; try bounds; try exact Hlen.
    intros a Ha1 Ha2. destruct a; cbn; congruence.
  - right.
    remember (u64_from_le_bytes (nth 5 (user_ciphertexts res) [])) as amt eqn:Hamt.
    destruct (0 <? amt) eqn:Hpos.
    + step H. injection H as <-. cbn.
      apply token_transfer_ok in E0 as [Hle ->]. apply Z.ltb_lt in Hpos.
      repeat split; try reflexivity. right. exists amt. repeat split; try lia.
      intros a Ha1 Ha2. destruct a; cbn; congruence.
    + cbn in H. injection H as <-. cbn. repeat split. left. reflexivity.
Qed.


(** [repay_callback_handler] and [update_interest_callback_handler]: on success no token moves, [total_funded] and [total_claimed] are kept, the nonce grows by one without reaching 2^128, the obligation stores the first four user ciphertexts and the hash of their concatenation, and the pool stores the first four of at least four pool ciphertexts with their hash. *)
Theorem repay_and_interest_callbacks_store_outputs (keccak : list Z -> list Z)
    (l : Ledger) (now : Z) (res : ComputationResult) (l' : Ledger)
    (H : repay_callback_handler keccak l now (Some res) = Ok l' \/
         update_interest_callback_handler keccak l now (Some res) = Ok l') :
  balances l' = balances l /\
  total_funded (obligation l') = total_funded (obligation l) /\
  total_claimed (obligation l') = total_claimed (obligation l) /\
  state_nonce (obligation l') = state_nonce (obligation l) + 1 /\
  state_nonce (obligation l') < U128.modulus /\
  encrypted_state_blob (obligation l') = concat (firstn 4 (user_ciphertexts res)) /\
  state_commitment (obligation l') = keccak (encrypted_state_blob (obligation l')) /\
  (4 <= length (pool_ciphertexts res))%nat /\
  encrypted_pool_state (pool l') = concat (firstn 4 (pool_ciphertexts res)) /\
  pool_state_commitment (pool l') = keccak (encrypted_pool_state (pool l')) /\
  pool_state_initialized (pool l') = true.
Proof.
  destruct H as [H | H];
    [unfold repay_callback_handler in H | unfold update_interest_callback_handler in H];
    repeat step H; injection H as <-; cbn;
    match goal with
    | Hn : checked_add_u128 _ _ = Ok _, Hp : store_pool_output _ _ _ _ = Ok _ |- _ =>
        apply checked_add_u128_ok in Hn as [-> Hn];
        apply store_pool_output_ok in Hp as [Hlen ->]
    end;
    repeat split; auto.
Qed.

(** [update_interest_callback_handler] and [repay_callback_handler] on a verified output: the interest callback succeeds exactly when there are at least five user ciphertexts, the nonce can be incremented and there are at least four pool ciphertexts; the repay callback also requires a non-zero success flag in the fifth user ciphertext. *)
Theorem repay_and_interest_callback_acceptance (keccak : list Z -> list Z)
    (l : Ledger) (now : Z) (res : ComputationResult) :
  is_ok (update_interest_callback_handler keccak l now (Some res)) =
    (5 <=? length (user_ciphertexts res))%nat &&
    (state_nonce (obligation l) + 1 <? U128.modulus) &&
    (4 <=? length (pool_ciphertexts res))%nat /\
  is_ok (repay_callback_handler keccak l now (Some res)) =
    (5 <=? length (user_ciphertexts res))%nat &&
    negb (byte0 (nth 4 (user_ciphertexts res) []) =? 0) &&
    (state_nonce (obligation l) + 1 <? U128.modulus) &&
    (4 <=? length (pool_ciphertexts res))%nat.
Proof.
  unfold update_interest_callback_handler, repay_callback_handler, store_pool_output,
         first_four, checked_add_u128, require.
  destruct (5 <=? length (user_ciphertexts res))%nat; [|split; reflexivity].
  destruct (negb (byte0 (nth 4 (user_ciphertexts res) []) =? 0));
  destruct (state_nonce (obligation l) + 1 <? U128.modulus);
  destruct (pool_ciphertexts res) as [|c0 [|c1 [|c2 [|c3 cs]]]]; split; reflexivity.
Qed.

(** All six callbacks: a successful callback keeps the total number of tokens over the five accounts, and keeps every balance non-negative when they were (the borrow destination is not the borrow vault). *)
Theorem callbacks_conserve_tokens (keccak : list Z -> list Z)
    (user_borrow_account : TokenAccount) (Hdest : user_borrow_account <> BorrowVault)
    (l : Ledger) (now : Z) (output : option ComputationResult) (l' : Ledger)
    (H : deposit_callback_handler l now output = Ok l' \/
         withdraw_callback_handler l now output = Done l' \/
         borrow_callback_handler keccak user_borrow_account l now output = Done l' \/
         repay_callback_handler keccak l now output = Ok l' \/
         liquidate_callback_handler keccak l now output = Ok l' \/
         update_interest_callback_handler keccak l now output = Ok l') :
  total_tokens (balances l') = total_tokens (balances l) /\
  (balances_nonneg (balances l) -> balances_nonneg (balances l')).
Proof.
  apply moves_tokens_conserve.
  destruct H as [H | [H | [H | [H | [H | H]]]]].
  - apply (deposit_callback_moves l now output l' H).
  - apply (withdraw_callback_moves l now output l' H).
  - apply (borrow_callback_moves keccak user_borrow_account l now output l' Hdest H).
  - apply (repay_callback_moves keccak l now output l' H).
  - apply (liquidate_callback_moves keccak l now output l' H).
  - apply (interest_callback_moves keccak l now output l' H).
Qed.

(** Deposit, withdraw, borrow, repay and interest callbacks keep [vault balance - (total_funded - total_claimed)] (the borrow destination being neither vault).  The liquidation callback is not included: it moves collateral out of the vault without updating [total_claimed]. *)
Theorem callbacks_keep_collateral_gap (keccak : list Z -> list Z)
    (user_borrow_account : TokenAccount)
    (Hdest : user_borrow_account <> BorrowVault)
    (Hdest' : user_borrow_account <> CollateralVault)
    (l : Ledger) (now : Z) (output : option ComputationResult) (l' : Ledger)
    (H : deposit_callback_handler l now output = Ok l' \/
         withdraw_callback_handler l now output = Done l' \/
         borrow_callback_handler keccak user_borrow_account l now output = Done l' \/
         repay_callback_handler keccak l now output = Ok l' \/
         update_interest_callback_handler keccak l now output = Ok l') :
  collateral_gap l' = collateral_gap l.
Proof.
  destruct output as [res|];
    [|destruct H as [H | [H | [H | [H | H]]]]; discriminate H].
  unfold collateral_gap.
  destruct H as [H | [H | [H | [H | H]]]].
  - unfold deposit_callback_handler in H. repeat step H. injection H as <-. cbn.
    apply token_transfer_ok in E2 as [_ ->]. apply checked_add_u64_ok in E5 as [-> _].
    cbn. lia.
  - unfold withdraw_callback_handler in H. repeat step H. injection H as <-. cbn.
    apply token_transfer_ok in E3 as [_ ->]. apply checked_add_u64_ok in E6 as [-> _].
    cbn. lia.
  - unfold borrow_callback_handler in H. repeat step H. injection H as <-. cbn.
    apply token_transfer_ok in E3 as [_ ->].
    destruct user_borrow_account; cbn; congruence.
  - unfold repay_callback_handler in H. repeat step H. injection H as <-. reflexivity.
  - unfold update_interest_callback_handler in H. repeat step H. injection H as <-.
    reflexivity.
Qed.

(** [xor_commitment] of four 32-byte ciphertexts is 32 bytes long and its byte [j] is the XOR of the four ciphertexts' bytes [j]. *)
Theorem xor_commitment_of_four_ciphertexts (c0 c1 c2 c3 : ciphertext)
    (H0 : length c0 = 32%nat) (H1 : length c1 = 32%nat)
    (H2 : length c2 = 32%nat) (H3 : length c3 = 32%nat) :
  length (xor_commitment (concat [c0; c1; c2; c3])) = 32%nat /\
  forall j, (j < 32)%nat ->
    nth j (xor_commitment (concat [c0; c1; c2; c3])) 0 =
    Z.lxor (Z.lxor (Z.lxor (nth j c0 0) (nth j c1 0)) (nth j c2 0)) (nth j c3 0).
Proof.
  assert (E : xor_commitment (concat [c0; c1; c2; c3]) =
              xor_into (xor_into (xor_into c0 c1) c2) c3).
  { unfold xor_commitment. cbn [concat]. rewrite app_nil_r.
    rewrite !xor_fold_app, H0, H1, H2.
    rewrite (xor_fold_block 0 c0) by (rewrite ?repeat_length; auto).
    replace (xor_into (repeat 0 32) c0) with c0
      by (rewrite <- H0; symmetry; apply xor_into_zeros).
    rewrite (xor_fold_block (0 + 32) c1) by (rewrite ?xor_into_length; auto).
    rewrite (xor_fold_block (0 + 32 + 32) c2) by (rewrite ?xor_into_length; auto).
    rewrite (xor_fold_block (0 + 32 + 32 + 32) c3) by (rewrite ?xor_into_length; auto).
    reflexivity. }
  rewrite E. split.
  - rewrite !xor_into_length. exact H0.
  - intros j Hj. rewrite !xor_into_nth; rewrite ?xor_into_length; lia.
Qed.

(** [compute_confidential_interest]: for a user with no borrow, the interest is kept, the timestamp becomes [current_ts], the pool is unchanged and the update succeeds. *)
Theorem interest_without_principal_accrues_nothing (u : UserState) (p : PoolState)
    (current_ts rate : Z) (Hu : user_ok u) (Hp : pool_ok p) (Hb : borrow_amount u = 0) :
  let r := value (compute_confidential_interest u p current_ts rate) in
  int_new_user_state (fst r) =
    mkUserState (deposit_amount u) 0 (accrued_interest u) current_ts /\
  snd r = p /\ int_success (fst r) = true.
Proof.
  destruct u as [d b i ts], p as [td tb ai av]; unfold user_ok, pool_ok in *; cbn in *.
  subst b. destruct Hu as (Hd0 & _ & Hi0 & _), Hp as (Ht0 & Htb0 & Hai0 & Hav0).
  unfold_circuit; cbn.
  rewrite !add_0_r_u128 by assumption. repeat split.
Qed.

Lemma deposit_credit_within_cap_witness :
  let amount := 500 in
  let max_creditable := 600 in
  let u := sample_user in
  let p := sample_pool in
  let r := value (compute_confidential_deposit amount u p max_creditable) in
  let credit := if dep_success (fst r) then amount else 0 in
  dep_success (fst r) = (amount <=? max_creditable) /\
  dep_new_user_state (fst r) =
    mkUserState (deposit_amount u + credit) (borrow_amount u) (accrued_interest u)
                (last_interest_calc_ts u) /\
  snd r = mkPoolState (total_deposits p + credit) (total_borrows p)
                      (accumulated_interest p) (available_borrow_liquidity p) /\
  subtractions (compute_confidential_deposit amount u p max_creditable) = [].
Proof.
  cbv zeta.
  apply (deposit_credit_within_cap 500 600 sample_user sample_pool); unfold sample_user, sample_pool, user_ok, pool_ok, U128.in_range, I64.in_range, U128.modulus; cbn; lia.
Defined.

Lemma borrow_never_underflows_witness :
  let amt := 300 in
  let u := sample_user in
  let p := sample_pool in
  let cp := 100 in
  let bp := 1 in
  let ltv := 7500 in
  forallb (fun s => negb (underflows s))
          (subtractions (compute_confidential_borrow amt u p cp bp ltv)) = true.
Proof.
  cbv zeta.
  apply (borrow_never_underflows 300 sample_user sample_pool 100 1 7500); unfold sample_user, sample_pool, user_ok, pool_ok, U128.in_range, I64.in_range, U128.modulus; cbn; lia.
Defined.

Lemma borrow_moves_liquidity_to_debt_witness :
  let amt := 300 in
  let u := sample_user in
  let p := sample_pool in
  let cp := 100 in
  let bp := 1 in
  let ltv := 7500 in
  let r := value (compute_confidential_borrow amt u p cp bp ltv) in
  let delta := if bor_approved (fst r) then amt else 0 in
  bor_new_user_state (fst r) =
    mkUserState (deposit_amount u) (borrow_amount u + delta) (accrued_interest u)
                (last_interest_calc_ts u) /\
  snd r = mkPoolState (total_deposits p) (total_borrows p + delta)
                      (accumulated_interest p) (available_borrow_liquidity p - delta) /\
  total_borrows (snd r) + available_borrow_liquidity (snd r) =
    total_borrows p + available_borrow_liquidity p /\
  0 <= available_borrow_liquidity (snd r).
Proof.
  cbv zeta.
  apply (borrow_moves_liquidity_to_debt 300 sample_user sample_pool 100 1 7500); unfold sample_user, sample_pool, user_ok, pool_ok, U128.in_range, I64.in_range, U128.modulus; cbn; lia.
Defined.

Lemma withdraw_only_pool_deposits_can_underflow_witness :
  let m := compute_confidential_withdraw 200 sample_user sample_pool 100 1 7500 in
  let s := nth 0 (subtractions m) (0, 0) in
  nth_error (subtractions m) 0 = Some s /\ underflows s = false.
Proof.
  intros m s.
  assert (E : nth_error (subtractions m) 0 = Some s) by (vm_compute; reflexivity).
  split; [exact E|].
  exact (withdraw_only_pool_deposits_can_underflow 200 sample_user sample_pool 100 1 7500
           ltac:(lia) ltac:(unfold U128.in_range, U128.modulus; cbn; lia)
           0%nat s E ltac:(discriminate)).
Defined.

Lemma withdraw_debits_user_and_pool_equally_witness :
  let w := 200 in
  let u := sample_user in
  let p := sample_pool in
  let cp := 100 in
  let bp := 1 in
  let ltv := 7500 in
  let r := value (compute_confidential_withdraw w u p cp bp ltv) in
  let delta := if wd_approved (fst r) then Z.min w (deposit_amount u) else 0 in
  wd_new_user_state (fst r) =
    mkUserState (deposit_amount u - delta) (borrow_amount u) (accrued_interest u)
                (last_interest_calc_ts u) /\
  snd r = mkPoolState (total_deposits p - delta) (total_borrows p)
                      (accumulated_interest p) (available_borrow_liquidity p).
Proof.
  cbv zeta.
  apply (withdraw_debits_user_and_pool_equally 200 sample_user sample_pool 100 1 7500); unfold sample_user, sample_pool, user_ok, pool_ok, U128.in_range, I64.in_range, U128.modulus; cbn; lia.
Defined.

Lemma withdraw_without_debt_approved_witness :
  let w := 200 in
  let u := mkUserState 1000 0 0 0 in
  let p := mkPoolState 0 0 0 0 in
  let cp := 100 in
  let bp := 1 in
  let ltv := 7500 in
  let r := value (compute_confidential_withdraw w u p cp bp ltv) in
  wd_approved (fst r) = true /\
  deposit_amount (wd_new_user_state (fst r)) = deposit_amount u - Z.min w (deposit_amount u) /\
  total_deposits (snd r) = U128.wrap (total_deposits p - Z.min w (deposit_amount u)).
Proof.
  cbv zeta.
  apply (withdraw_without_debt_approved 200 (mkUserState 1000 0 0 0) (mkPoolState 0 0 0 0)
           100 1 7500);
    unfold user_ok, pool_ok, U128.in_range, I64.in_range, U128.modulus; cbn; lia.
Defined.

Lemma repay_returns_debt_to_liquidity_witness :
  let repay_amount := 50 in
  let u := sample_user in
  let p := sample_pool in
  let r := value (compute_confidential_repay repay_amount u p) in
  let u' := rep_new_user_state (fst r) in
  let actual_repay := Z.min repay_amount (borrow_amount u + accrued_interest u) in
  borrow_amount u' + accrued_interest u' =
    borrow_amount u + accrued_interest u - actual_repay /\
  available_borrow_liquidity (snd r) = available_borrow_liquidity p + actual_repay /\
  accumulated_interest (snd r) =
    accumulated_interest p + (accrued_interest u - accrued_interest u') /\
  rep_success (fst r) = (0 <? actual_repay).
Proof.
  cbv zeta.
  apply (repay_returns_debt_to_liquidity 50 sample_user sample_pool); unfold sample_user, sample_pool, user_ok, pool_ok, U128.in_range, I64.in_range, U128.modulus; cbn; lia.
Defined.

Lemma liquidate_healthy_position_untouched_witness :
  let repay_amount := 50 in
  let u := sample_user in
  let p := sample_pool in
  let cp := 100 in
  let bp := 1 in
  let thr := 8500 in
  let bonus := 500 in
  liq_new_user_state (fst (value (compute_confidential_liquidate repay_amount u p
                                    cp bp thr bonus))) = u /\
  snd (value (compute_confidential_liquidate repay_amount u p cp bp thr bonus)) = p.
Proof.
  cbv zeta.
  apply (liquidate_healthy_position_untouched 50 sample_user sample_pool 100 1 8500 500); [unfold sample_user, sample_pool, user_ok, pool_ok, U128.in_range, I64.in_range, U128.modulus; cbn; lia | unfold sample_user, sample_pool, user_ok, pool_ok, U128.in_range, I64.in_range, U128.modulus; cbn; lia | vm_compute; reflexivity].
Defined.

Lemma interest_without_principal_accrues_nothing_witness :
  let u := mkUserState 1000 0 10 0 in
  let p := sample_pool in
  let current_ts := 1000 in
  let rate := 500 in
  let r := value (compute_confidential_interest u p current_ts rate) in
  int_new_user_state (fst r) =
    mkUserState (deposit_amount u) 0 (accrued_interest u) current_ts /\
  snd r = p /\ int_success (fst r) = true.
Proof.
  cbv zeta.
  apply (interest_without_principal_accrues_nothing (mkUserState 1000 0 10 0) sample_pool 1000 500); unfold sample_user, sample_pool, user_ok, pool_ok, U128.in_range, I64.in_range, U128.modulus; cbn; lia.
Defined.

Lemma xor_commitment_of_four_ciphertexts_witness :
  let c0 := ct 1 in
  let c1 := ct 2 in
  let c2 := ct 4 in
  let c3 := ct 8 in
  length (xor_commitment (concat [c0; c1; c2; c3])) = 32%nat /\
  forall j, (j < 32)%nat ->
    nth j (xor_commitment (concat [c0; c1; c2; c3])) 0 =
    Z.lxor (Z.lxor (Z.lxor (nth j c0 0) (nth j c1 0)) (nth j c2 0)) (nth j c3 0).
Proof.
  cbv zeta.
  apply (xor_commitment_of_four_ciphertexts (ct 1) (ct 2) (ct 4) (ct 8)); reflexivity.
Defined.

Lemma deposit_callback_accounting_witness :
  let l := sample_ledger in
  let now := 1 in
  let output := sample_transfer_output in
  let l' := apply_tx l (deposit_callback_handler l now output) in
  deposit_callback_handler l now output = Ok l' /\
  (exists amount,
    0 < amount <= balances l UserTokenAccount /\
    balances l' UserTokenAccount = balances l UserTokenAccount - amount /\
    balances l' CollateralVault = balances l CollateralVault + amount /\
    (forall a, a <> UserTokenAccount -> a <> CollateralVault ->
               balances l' a = balances l a) /\
    total_funded (obligation l') = total_funded (obligation l) + amount /\
    total_funded (obligation l') < U64.modulus /\
    total_claimed (obligation l') = total_claimed (obligation l) /\
    state_nonce (obligation l') = state_nonce (obligation l) + 1 /\
    state_nonce (obligation l') < U128.modulus).
Proof.
  intros l now output l'.
  assert (H : deposit_callback_handler l now output = Ok l') by (vm_compute; reflexivity).
  split; [exact H | exact (deposit_callback_accounting l now output l' H)].
Defined.

Lemma withdraw_callback_accounting_witness :
  let l := sample_ledger in
  let now := 1 in
  let output := sample_transfer_output in
  let l' := commit l (withdraw_callback_handler l now output) in
  withdraw_callback_handler l now output = Done l' /\
  (exists amount,
    0 < amount <= balances l CollateralVault /\
    balances l' CollateralVault = balances l CollateralVault - amount /\
    balances l' UserTokenAccount = balances l UserTokenAccount + amount /\
    (forall a, a <> CollateralVault -> a <> UserTokenAccount ->
               balances l' a = balances l a) /\
    total_claimed (obligation l') = total_claimed (obligation l) + amount /\
    total_claimed (obligation l') < U64.modulus /\
    total_funded (obligation l') = total_funded (obligation l) /\
    state_nonce (obligation l') = state_nonce (obligation l) + 1 /\
    state_nonce (obligation l') < U128.modulus /\
    pool l' = {| encrypted_pool_state := encrypted_pool_state (pool l);
                 pool_state_commitment := pool_state_commitment (pool l);
                 pool_state_initialized := pool_state_initialized (pool l);
                 pool_last_update_ts := now |}).
Proof.
  intros l now output l'.
  assert (H : withdraw_callback_handler l now output = Done l') by (vm_compute; reflexivity).
  split; [exact H | exact (withdraw_callback_accounting l now output l' H)].
Defined.

Lemma borrow_callback_accounting_witness :
  let keccak := sample_keccak in
  let user_borrow_account := UserTokenAccount in
  let l := sample_ledger in
  let now := 1 in
  let output := sample_borrow_output in
  let l' := commit l (borrow_callback_handler keccak user_borrow_account l now output) in
  borrow_callback_handler keccak user_borrow_account l now output = Done l' /\
  (exists amount,
    0 < amount <= balances l BorrowVault /\
    balances l' BorrowVault = balances l BorrowVault - amount /\
    balances l' user_borrow_account = balances l user_borrow_account + amount /\
    (forall a, a <> BorrowVault -> a <> user_borrow_account ->
               balances l' a = balances l a) /\
    total_funded (obligation l') = total_funded (obligation l) /\
    total_claimed (obligation l') = total_claimed (obligation l) /\
    state_nonce (obligation l') = state_nonce (obligation l) + 1 /\
    state_nonce (obligation l') < U128.modulus /\
    state_commitment (obligation l') = keccak (encrypted_state_blob (obligation l'))).
Proof.
  intros keccak user_borrow_account l now output l'.
  assert (H : borrow_callback_handler keccak user_borrow_account l now output = Done l') by (vm_compute; reflexivity).
  split; [exact H | exact (borrow_callback_accounting keccak user_borrow_account ltac:(discriminate) l now output l' H)].
Defined.

Lemma liquidate_callback_accounting_witness :
  let keccak := sample_keccak in
  let l := sample_ledger in
  let now := 1 in
  let res := {| user_ciphertexts := [ct 0; ct 0; ct 0; ct 0; ct 1; ct 5; ct 7];
                pool_ciphertexts := repeat (ct 0) 4 |} in
  let l' := apply_tx l (liquidate_callback_handler keccak l now (Some res)) in
  liquidate_callback_handler keccak l now (Some res) = Ok l' /\
  ((exists seized,
     0 < seized <= balances l CollateralVault /\
     balances l' CollateralVault = balances l CollateralVault - seized /\
     balances l' LiquidatorCollateralAccount = balances l LiquidatorCollateralAccount + seized /\
     (forall a, a <> CollateralVault -> a <> LiquidatorCollateralAccount ->
                balances l' a = balances l a) /\
     total_funded (obligation l') = total_funded (obligation l) /\
     total_claimed (obligation l') = total_claimed (obligation l) /\
     state_nonce (obligation l') = state_nonce (obligation l) + 1 /\
     state_nonce (obligation l') < U128.modulus /\
     encrypted_state_blob (obligation l') = concat (firstn 4 (user_ciphertexts res)) /\
     state_commitment (obligation l') = keccak (encrypted_state_blob (obligation l')) /\
     (4 <= length (pool_ciphertexts res))%nat /\
     encrypted_pool_state (pool l') = concat (firstn 4 (pool_ciphertexts res)) /\
     pool_state_commitment (pool l') = keccak (encrypted_pool_state (pool l')) /\
     pool_state_initialized (pool l') = true) \/
  (obligation l' = obligation l /\ pool l' = pool l /\
   (balances l' = balances l \/
    exists refund,
      0 < refund <= balances l BorrowVault /\
      balances l' BorrowVault = balances l BorrowVault - refund /\
      balances l' LiquidatorBorrowAccount = balances l LiquidatorBorrowAccount + refund /\
      (forall a, a <> BorrowVault -> a <> LiquidatorBorrowAccount ->
                 balances l' a = balances l a)))).
Proof.
  intros keccak l now res l'.
  assert (H : liquidate_callback_handler keccak l now (Some res) = Ok l')
    by (vm_compute; reflexivity).
  split; [exact H | exact (liquidate_callback_accounting keccak l now res l' H)].
Defined.

Lemma liquidate_only_pool_deposits_can_underflow_witness :
  let m := compute_confidential_liquidate 50 sample_user sample_pool 100 1 8500 500 in
  let s := nth 0 (subtractions m) (0, 0) in
  nth_error (subtractions m) 0 = Some s /\ underflows s = false.
Proof.
  intros m s.
  assert (E : nth_error (subtractions m) 0 = Some s) by (vm_compute; reflexivity).
  split; [exact E|].
  exact (liquidate_only_pool_deposits_can_underflow 50 sample_user sample_pool 100 1 8500 500
           0%nat s E ltac:(discriminate)).
Defined.

Lemma repay_and_interest_callbacks_store_outputs_witness :
  let keccak := sample_keccak in
  let l := sample_ledger in
  let now := 1 in
  let res := {| user_ciphertexts := [ct 0; ct 0; ct 0; ct 0; ct 1];
                pool_ciphertexts := repeat (ct 0) 4 |} in
  let l' := apply_tx l (repay_callback_handler keccak l now (Some res)) in
  repay_callback_handler keccak l now (Some res) = Ok l' /\
  balances l' = balances l /\
  total_funded (obligation l') = total_funded (obligation l) /\
  total_claimed (obligation l') = total_claimed (obligation l) /\
  state_nonce (obligation l') = state_nonce (obligation l) + 1 /\
  state_nonce (obligation l') < U128.modulus /\
  encrypted_state_blob (obligation l') = concat (firstn 4 (user_ciphertexts res)) /\
  state_commitment (obligation l') = keccak (encrypted_state_blob (obligation l')) /\
  (4 <= length (pool_ciphertexts res))%nat /\
  encrypted_pool_state (pool l') = concat (firstn 4 (pool_ciphertexts res)) /\
  pool_state_commitment (pool l') = keccak (encrypted_pool_state (pool l')) /\
  pool_state_initialized (pool l') = true.
Proof.
  intros keccak l now res l'.
  assert (H : repay_callback_handler keccak l now (Some res) = Ok l')
    by (vm_compute; reflexivity).
  split; [exact H | exact (repay_and_interest_callbacks_store_outputs keccak l now res l'
                             (or_introl H))].
Defined.

Lemma callbacks_conserve_tokens_witness :
  let keccak := sample_keccak in
  let l := sample_ledger in
  let now := 1 in
  let output := sample_transfer_output in
  let l' := apply_tx l (deposit_callback_handler l now output) in
  deposit_callback_handler l now output = Ok l' /\
  total_tokens (balances l') = total_tokens (balances l) /\
  (balances_nonneg (balances l) -> balances_nonneg (balances l')).
Proof.
  intros keccak l now output l'.
  assert (H : deposit_callback_handler l now output = Ok l')
    by (vm_compute; reflexivity).
  split; [exact H | exact (callbacks_conserve_tokens keccak UserTokenAccount
                             ltac:(discriminate) l now output l' (or_introl H))].
Defined.

Lemma callbacks_keep_collateral_gap_witness :
  let keccak := sample_keccak in
  let l := sample_ledger in
  let now := 1 in
  let output := sample_transfer_output in
  let l' := commit l (withdraw_callback_handler l now output) in
  withdraw_callback_handler l now output = Done l' /\
  collateral_gap l' = collateral_gap l.
Proof.
  intros keccak l now output l'.
  assert (H : withdraw_callback_handler l now output = Done l')
    by (vm_compute; reflexivity).
  split; [exact H | exact (callbacks_keep_collateral_gap keccak UserTokenAccount
                             ltac:(discriminate) ltac:(discriminate) l now output l'
                             (or_intror (or_introl H)))].
Defined.
